(** * Batch certificate generation: the [generate-certificates] edge function

    A shallow embedding of the edge function that renders the pending
    certificates of a batch (placeholder substitution over the template
    markup), uploads each rendering to the [certificates] bucket, records the
    outcome on every certificate row and finally writes the status and the
    count of the batch.

    Layout:
    - [Js]: the JavaScript values and built-ins the function relies on
      ([String(value)], [new RegExp(placeholder, 'g')], [String.prototype.replace]);
    - [Render]: the placeholder substitution loop of the handler;
    - [Template]: templates as sequences of characters and markers, and the
      one-pass substitution the sequential loop is compared with;
    - [Db]: the rows of the three tables, the bucket, and the outcome of the
      calls made through the Supabase client;
    - [Handler]: the request handler itself. *)

From Stdlib Require Import List String Ascii ZArith Lia Bool Permutation.
From Stdlib Require Import DecimalString.
Import ListNotations.
Open Scope list_scope.

(* ------------------------------------------------------------------ *)
(** ** JavaScript values and built-ins *)

Module Js.

(** Text that is scanned character by character (template markup, keys and
    values of [certificate_data], uploaded content) is a list of code units.
    The code units covered are those below 256; the substitution treats a
    code unit above that range as it treats a letter, except for the line
    separators U+2028 and U+2029, which the wildcard does not match.
    Identifiers and messages, which are only compared and concatenated, are
    strings. *)
Definition text := list ascii.

Definition str (s : string) : text := list_ascii_of_string s.

(** Completion of an evaluation: a value, or a thrown error seen through its
    [message] property, which is all the handler reads of it. *)
Inductive completion (A : Type) : Type :=
| Normal (a : A)
| Throw (message : string).
Arguments Normal {A} a.
Arguments Throw {A} message.

(** A number of [certificate_data] is an IEEE double.  The integers that
    every double holds exactly and that [String] writes out digit by digit
    are the safe integers, of magnitude at most 2^53 - 1
    ([Number.MAX_SAFE_INTEGER]). *)
Definition safe_integer (n : Z) : bool :=
  (Z.abs n <=? 9007199254740991)%Z.

(** The values of [certificate_data], which the handler reads through
    [String(value)] only.  [VNum n] is the number with the safe integral
    value [n].  Any other number (a fraction, or a number beyond the safe
    integers, which JSON parsing has rounded to a double) is a [VNumber],
    given by the text [String] writes for it, such as [1.5] or [1e+21]. *)
Inductive value : Type :=
| VStr (s : text)
| VNum (n : Z) (safe : safe_integer n = true)
| VNumber (written : text)
| VBool (b : bool)
| VNull.

(** [String(value)] *)
Definition String_ (v : value) : text :=
  match v with
  | VStr s => s
  | VNum n _ => str (NilZero.string_of_int (Z.to_int n))
  | VNumber written => written
  | VBool true => str "true"
  | VBool false => str "false"
  | VNull => str "null"
  end.

Definition text_eqb (a b : text) : bool :=
  if list_eq_dec ascii_dec a b then true else false.

Definition is_char (s : string) (c : ascii) : bool :=
  match s with
  | String d EmptyString => Ascii.eqb c d
  | _ => false
  end.

Definition one_of (s : string) (c : ascii) : bool :=
  existsb (Ascii.eqb c) (list_ascii_of_string s).

(** *** Regular expressions built from a placeholder

    The handler builds [new RegExp(`{{${key}}}`, 'g')]: the key is read as
    pattern source.  The fragment given a semantics here is the one in which
    every character of the key is an ordinary pattern character or the
    wildcard [.]; a key with another syntax character, or one that reads as
    the body of a braced quantifier ([{{2}}] is the character [{] repeated
    twice), is left to the engine, see [Render]. *)

Inductive atom : Type :=
| Lit (c : ascii)
| Dot.

(** SyntaxCharacter, and the two braces. *)
Definition syntax_char (c : ascii) : bool :=
  one_of "^$\.*+?()[]{}|" c.

Definition is_digit (c : ascii) : bool := one_of "0123456789" c.

(** [DecimalDigits], [DecimalDigits,] or [DecimalDigits,DecimalDigits]:
    between [{] and [}] this is a quantifier. *)
Fixpoint quantifier_body_from (seen_digit : bool) (k : text) : bool :=
  match k with
  | [] => seen_digit
  | c :: k' =>
      if is_digit c then quantifier_body_from true k'
      else if is_char "," c then seen_digit && forallb is_digit k'
      else false
  end.

Definition quantifier_body (k : text) : bool := quantifier_body_from false k.

Fixpoint key_atoms (k : text) : option (list atom) :=
  match k with
  | [] => Some []
  | c :: k' =>
      match key_atoms k' with
      | None => None
      | Some rest =>
          if is_char "." c then Some (Dot :: rest)
          else if syntax_char c then None
          else Some (Lit c :: rest)
      end
  end.

(** `{{${key}}}` *)
Definition placeholder (key : text) : text :=
  str "{{" ++ key ++ str "}}".

(** The pattern of [new RegExp(placeholder, 'g')], when the key is in the
    fragment. *)
Definition placeholder_regexp (key : text) : option (list atom) :=
  if quantifier_body key then None
  else match key_atoms key with
       | None => None
       | Some body =>
           Some (Lit "{" :: Lit "{" :: body ++ [Lit "}"; Lit "}"])%char
       end.

(** LineTerminator, which [.] does not match. *)
Definition line_terminator (c : ascii) : bool :=
  Ascii.eqb c "010"%char || Ascii.eqb c "013"%char.

Definition atom_matches (a : atom) (c : ascii) : bool :=
  match a with
  | Lit d => Ascii.eqb d c
  | Dot => negb (line_terminator c)
  end.

(** Match of the pattern at the start of [s]: the text after the match. *)
Fixpoint match_here (p : list atom) (s : text) : option text :=
  match p, s with
  | [], _ => Some s
  | a :: p', c :: s' => if atom_matches a c then match_here p' s' else None
  | _ :: _, [] => None
  end.

(** GetSubstitution for a match without capture groups: [$$], [$&], [$`]
    and [$']; a [$] followed by anything else stands for itself. *)
Fixpoint get_substitution (matched before after replacement : text) : text :=
  match replacement with
  | [] => []
  | c :: r =>
      if is_char "$" c then
        match r with
        | [] => [c]
        | d :: r' =>
            if is_char "$" d then d :: get_substitution matched before after r'
            else if is_char "&" d then
              matched ++ get_substitution matched before after r'
            else if is_char "`" d then
              before ++ get_substitution matched before after r'
            else if is_char "'" d then
              after ++ get_substitution matched before after r'
            else c :: get_substitution matched before after r
        end
      else c :: get_substitution matched before after r
  end.

(** [subject.replace(regexp, replacement)] with the [g] flag, for a pattern
    that matches a fixed, positive number of characters: a scan from left
    to right in which [skip] counts the characters of the last match still
    to be passed over and [before] is the part of the subject already
    passed. *)
Fixpoint replace_from (p : list atom) (replacement : text)
    (skip : nat) (before s : text) : text :=
  match s with
  | [] => []
  | c :: s' =>
      match skip with
      | S n => replace_from p replacement n (before ++ [c]) s'
      | O =>
          match match_here p s with
          | Some after =>
              get_substitution (firstn (List.length p) s) before after
                replacement
              ++ replace_from p replacement (List.length p - 1)
                   (before ++ [c]) s'
          | None => c :: replace_from p replacement 0 (before ++ [c]) s'
          end
      end
  end.

Definition replace (p : list atom) (replacement subject : text) : text :=
  replace_from p replacement 0 [] subject.

End Js.

(* ------------------------------------------------------------------ *)
(** ** Placeholder substitution (handler lines 50-58) *)

Module Render.
Import Js.

(** [certificate_data]: the entries of the object in the order
    [Object.entries] yields them.  The column is read as an object whose
    values are scalars, or as null; other JSON shapes are not covered. *)
Definition data := list (text * value).

Section Engine.

(** The engine on a placeholder outside the fragment of [Js]: given the
    pattern source, the replacement and the subject, the text
    [subject.replace(new RegExp(source, 'g'), replacement)] evaluates to, or
    the error it throws (a SyntaxError for a source that is not a pattern). *)
Variable beyond : text -> text -> text -> completion text.

(** One turn of the [forEach] callback.  [htmlContent] is [None] when the
    template has no content ([template_content] is nullable), and calling
    [replace] on it throws. *)
Definition replace_placeholder (key : text) (v : value)
    (htmlContent : option text) : completion (option text) :=
  match htmlContent with
  | None => Throw "Cannot read properties of null (reading 'replace')"
  | Some h =>
      match placeholder_regexp key with
      | Some p => Normal (Some (replace p (String_ v) h))
      | None =>
          match beyond (placeholder key) (String_ v) h with
          | Normal r => Normal (Some r)
          | Throw m => Throw m
          end
      end
  end.

Fixpoint forEach (entries : data) (htmlContent : option text)
    : completion (option text) :=
  match entries with
  | [] => Normal htmlContent
  | (key, v) :: rest =>
      match replace_placeholder key v htmlContent with
      | Normal h => forEach rest h
      | Throw m => Throw m
      end
  end.

(** The value of [htmlContent] after lines 51-58; [certificate_data] is
    [None] when the column holds a JSON null. *)
Definition htmlContent (template_content : option text)
    (certificate_data : option data) : completion (option text) :=
  match certificate_data with
  | None => Normal template_content
  | Some entries => forEach entries template_content
  end.

End Engine.

(** An engine that rejects every pattern outside the fragment; used to run
    the model on concrete inputs that stay inside the fragment. *)
Definition no_engine : text -> text -> text -> completion text :=
  fun _ _ _ => Throw "Invalid regular expression".

End Render.

(* ------------------------------------------------------------------ *)
(** ** Templates as characters and markers *)

Module Template.
Import Js Render.

(** A template read as a sequence of single characters and of markers
    [{{name}}]. *)
Inductive token : Type :=
| Char (c : ascii)
| Marker (name : text).

Definition token_text (t : token) : text :=
  match t with
  | Char c => [c]
  | Marker n => placeholder n
  end.

Definition flatten (toks : list token) : text := flat_map token_text toks.

Definition brace (c : ascii) : bool := is_char "{" c || is_char "}" c.

Definition brace_free (s : text) : bool := forallb (fun c => negb (brace c)) s.

(** Does the text of [toks] start with an opening brace? *)
Definition opens (toks : list token) : bool :=
  match toks with
  | [] => false
  | Char c :: _ => is_char "{" c
  | Marker _ :: _ => true
  end.

(** Every [{{] of the text opens a marker with a brace-free name: no marker
    name holds a brace, and no single [{] is directly followed by another
    opening brace.  Single braces (style sheets) are allowed. *)
Fixpoint well_formed (toks : list token) : bool :=
  match toks with
  | [] => true
  | Char c :: rest => negb (is_char "{" c && opens rest) && well_formed rest
  | Marker n :: rest => brace_free n && well_formed rest
  end.

(** The value of a key: the first entry that carries it. *)
Fixpoint lookup (D : data) (k : text) : option value :=
  match D with
  | [] => None
  | (k', v) :: rest => if text_eqb k' k then Some v else lookup rest k
  end.

(** The substitution as the specification words it, in one pass: every
    marker whose key is in the mapping becomes the text of the value, every
    other marker and every character stays. *)
Definition substitute_token (D : data) (t : token) : list token :=
  match t with
  | Char c => [Char c]
  | Marker n =>
      match lookup D n with
      | Some v => map Char (String_ v)
      | None => [Marker n]
      end
  end.

Definition substitute_markers (D : data) (toks : list token) : list token :=
  flat_map (substitute_token D) toks.

(** A key the engine reads literally: no syntax character (so no brace and
    no wildcard), and not the body of a quantifier. *)
Definition literal_key (k : text) : bool :=
  negb (quantifier_body k) && forallb (fun c => negb (syntax_char c)) k.

(** A value whose text holds no brace and no [$]. *)
Definition inert_value (v : value) : bool :=
  forallb (fun c => negb (brace c) && negb (is_char "$" c)) (String_ v).

Definition literal_keys (D : data) : bool :=
  forallb (fun kv => literal_key (fst kv)) D.

Definition inert_values (D : data) : bool :=
  forallb (fun kv => inert_value (snd kv)) D.

End Template.

(* ------------------------------------------------------------------ *)
(** ** Tables, bucket and the calls made through the client *)

Module CertificateTemplate.
Record row : Type := {
  id : string;
  user_id : string;
  name : string;
  template_content : option Js.text
}.
End CertificateTemplate.

Module CertificateBatch.
Record row : Type := {
  id : string;
  user_id : string;
  template_id : string;
  batch_name : string;
  total_certificates : Z;
  generated_certificates : Z;
  status : string;
  batch_zip_url : option string;
  error_message : option string;
  created_at : string;
  updated_at : string
}.

(** [update({ status, generated_certificates, updated_at })] on one row; the
    [BEFORE UPDATE] trigger then stamps [updated_at] with the clock of the
    database, which is the value kept here. *)
Definition update (status' : string) (generated : Z) (now : string)
    (b : row) : row :=
  {| id := id b; user_id := user_id b; template_id := template_id b;
     batch_name := batch_name b; total_certificates := total_certificates b;
     generated_certificates := generated;
     status := status';
     batch_zip_url := batch_zip_url b; error_message := error_message b;
     created_at := created_at b;
     updated_at := now |}.

(** The columns the closing update does not name. *)
Definition other_columns (b : row) :=
  (id b, user_id b, template_id b, batch_name b, total_certificates b,
   batch_zip_url b, error_message b, created_at b).
End CertificateBatch.

Module Certificate.
Record row : Type := {
  id : string;
  batch_id : string;
  user_id : string;
  recipient_name : string;
  recipient_email : option string;
  certificate_data : option Render.data;
  certificate_url : option string;
  status : string;
  error_message : option string;
  created_at : string
}.

(** [update({ status: 'generated', certificate_url: publicUrl })] *)
Definition generated (publicUrl : string) (c : row) : row :=
  {| id := id c; batch_id := batch_id c; user_id := user_id c;
     recipient_name := recipient_name c; recipient_email := recipient_email c;
     certificate_data := certificate_data c;
     certificate_url := Some publicUrl;
     status := "generated";
     error_message := error_message c;
     created_at := created_at c |}.

(** [update({ status: 'failed', error_message: error.message })] *)
Definition failed (message : string) (c : row) : row :=
  {| id := id c; batch_id := batch_id c; user_id := user_id c;
     recipient_name := recipient_name c; recipient_email := recipient_email c;
     certificate_data := certificate_data c;
     certificate_url := certificate_url c;
     status := "failed";
     error_message := Some message;
     created_at := created_at c |}.
End Certificate.

Module Db.
Import Js.

(** The state the function works on: the three tables, rows in table order,
    and the objects of the [certificates] bucket by name. *)
Record World : Type := {
  certificate_templates : list CertificateTemplate.row;
  certificate_batches : list CertificateBatch.row;
  certificates : list Certificate.row;
  bucket : list (string * text)
}.

(** What the services answer during one invocation.  Every call through the
    client resolves to [{ data, error }]; the fields below give the [error]
    of each call the handler makes, [None] for a call that goes through. *)
Record Env : Type := {
  (** error of the batch query other than its row count *)
  batch_select_error : option string;
  (** message of [.single()] when the rows are none or several *)
  single_error : string;
  certificates_select_error : option string;
  (** error of the upload of an object name not yet in the bucket *)
  upload_error : string -> option string;
  (** message of an upload to a name already in the bucket (no [upsert]) *)
  exists_error : string;
  getPublicUrl : string -> string;
  (** error of the update to [generated], by certificate id *)
  generated_update_error : string -> option string;
  (** error of the update to [failed], by certificate id; never read *)
  failed_update_error : string -> option string;
  batch_update_error : option string;
  (** clock of the database at the closing update *)
  now : string
}.

(** Computations of the handler: they read and write the world and may
    throw. *)
Definition M (A : Type) : Type := World -> World * completion A.

Definition ret {A} (a : A) : M A := fun w => (w, Normal a).

Definition throw {A} (message : string) : M A := fun w => (w, Throw message).

Definition bind {A B} (m : M A) (k : A -> M B) : M B :=
  fun w =>
    match m w with
    | (w', Normal a) => k a w'
    | (w', Throw message) => (w', Throw message)
    end.

(** [try { m } catch (error) { h error.message }] *)
Definition try_catch {A} (m : M A) (h : string -> M A) : M A :=
  fun w =>
    match m w with
    | (w', Normal a) => (w', Normal a)
    | (w', Throw message) => h message w'
    end.

Definition lift {A} (c : completion A) : M A := fun w => (w, c).

Definition set_certificates (cs : list Certificate.row) (w : World) : World :=
  {| certificate_templates := certificate_templates w;
     certificate_batches := certificate_batches w;
     certificates := cs;
     bucket := bucket w |}.

Definition set_certificate_batches (bs : list CertificateBatch.row)
    (w : World) : World :=
  {| certificate_templates := certificate_templates w;
     certificate_batches := bs;
     certificates := certificates w;
     bucket := bucket w |}.

Definition set_bucket (objects : list (string * text)) (w : World) : World :=
  {| certificate_templates := certificate_templates w;
     certificate_batches := certificate_batches w;
     certificates := certificates w;
     bucket := objects |}.

(** [UPDATE certificates SET ... WHERE id = certificateId] *)
Definition update_where_id (certificateId : string)
    (f : Certificate.row -> Certificate.row)
    (cs : list Certificate.row) : list Certificate.row :=
  map (fun c => if String.eqb (Certificate.id c) certificateId then f c else c)
    cs.

Definition object (objects : list (string * text)) (name : string)
    : option text :=
  match find (fun o => String.eqb (fst o) name) objects with
  | Some o => Some (snd o)
  | None => None
  end.

End Db.

(* ------------------------------------------------------------------ *)
(** ** The request handler *)

Module Handler.
Import Js Db.

Declare Scope handler_scope.
Delimit Scope handler_scope with handler.
Notation "x <- m ;; k" := (bind m (fun x => k))
  (at level 61, m at next level, right associativity) : handler_scope.
Notation "m ;;; k" := (bind m (fun _ => k))
  (at level 61, right associativity) : handler_scope.
Open Scope handler_scope.
Open Scope string_scope.

(** A request: the preflight, or an invocation whose body carries
    [batchId]. *)
Inductive Request : Type :=
| OPTIONS
| POST (batchId : string).

Inductive Response : Type :=
(** ['ok'], the answer to the preflight *)
| Ok
(** status 200, [{ success: true, processed, total, batchId }] *)
| Success (processed total : nat) (batchId : string)
(** status 500, [{ error }] *)
| Failure (error : string).

Section Serve.

Variable beyond : text -> text -> text -> completion text.
Variable env : Env.

(** Lines 23-32: the batch with its template embedded, [.single()]. *)
Definition select_batch (batchId : string)
    : M (CertificateBatch.row * option CertificateTemplate.row) :=
  fun w =>
    match batch_select_error env with
    | Some message => (w, Throw message)
    | None =>
        match filter (fun b => String.eqb (CertificateBatch.id b) batchId)
                (certificate_batches w) with
        | [batch] =>
            (w, Normal (batch,
               find (fun t => String.eqb (CertificateTemplate.id t)
                                (CertificateBatch.template_id batch))
                 (certificate_templates w)))
        | _ => (w, Throw (single_error env))
        end
    end.

Definition is_pending (batchId : string) (c : Certificate.row) : bool :=
  String.eqb (Certificate.batch_id c) batchId
  && String.eqb (Certificate.status c) "pending".

(** Lines 35-41: the certificates of the batch with status [pending]. *)
Definition select_pending (batchId : string) : M (list Certificate.row) :=
  fun w =>
    match certificates_select_error env with
    | Some message => (w, Throw message)
    | None => (w, Normal (filter (is_pending batchId) (certificates w)))
    end.

(** Lines 51-58; [batch.template.template_content] throws when the batch
    came without a template. *)
Definition rendering (template : option CertificateTemplate.row)
    (certificate : Certificate.row) : completion (option text) :=
  match template with
  | None =>
      Throw "Cannot read properties of null (reading 'template_content')"
  | Some t =>
      Render.htmlContent beyond (CertificateTemplate.template_content t)
        (Certificate.certificate_data certificate)
  end.

Definition certificateFileName (certificate : Certificate.row) : string :=
  "certificate_" ++ Certificate.id certificate ++ ".html".

(** [new Blob([htmlContent])]: a part that is not a string goes through
    [String], so a null content is stored as the four letters. *)
Definition blob (htmlContent : option text) : text :=
  match htmlContent with
  | Some h => h
  | None => str "null"
  end.

(** Lines 65-72: upload, and throw what it answers. *)
Definition upload (fileName : string) (content : text) : M unit :=
  fun w =>
    match object (bucket w) fileName with
    | Some _ => (w, Throw (exists_error env))
    | None =>
        match upload_error env fileName with
        | Some message => (w, Throw message)
        | None => (set_bucket ((fileName, content) :: bucket w) w, Normal tt)
        end
    end.

(** Lines 80-88 *)
Definition update_generated (certificate : Certificate.row)
    (publicUrl : string) : M unit :=
  fun w =>
    match generated_update_error env (Certificate.id certificate) with
    | Some message => (w, Throw message)
    | None =>
        (set_certificates
           (update_where_id (Certificate.id certificate)
              (Certificate.generated publicUrl) (certificates w)) w,
         Normal tt)
    end.

(** Lines 97-103: the answer of this update is not looked at. *)
Definition update_failed (certificate : Certificate.row) (message : string)
    : M unit :=
  fun w =>
    match failed_update_error env (Certificate.id certificate) with
    | Some _ => (w, Normal tt)
    | None =>
        (set_certificates
           (update_where_id (Certificate.id certificate)
              (Certificate.failed message) (certificates w)) w,
         Normal tt)
    end.

(** The body of the [try] of one certificate, lines 50-91. *)
Definition generate (template : option CertificateTemplate.row)
    (certificate : Certificate.row) : M unit :=
  htmlContent <- lift (rendering template certificate) ;;
  upload (certificateFileName certificate) (blob htmlContent) ;;;
  update_generated certificate
    (getPublicUrl env (certificateFileName certificate)).

(** Lines 49-104: the [try] and the [catch] of one certificate. *)
Definition attempt (template : option CertificateTemplate.row)
    (certificate : Certificate.row)
    (processedCertificates : list string) : M (list string) :=
  try_catch
    (generate template certificate ;;;
     ret (processedCertificates ++ [Certificate.id certificate])%list)
    (fun message =>
       update_failed certificate message ;;;
       ret processedCertificates).

(** Lines 48-105: the loop, with [processedCertificates] threaded. *)
Fixpoint for_of (template : option CertificateTemplate.row)
    (certificates : list Certificate.row)
    (processedCertificates : list string) : M (list string) :=
  match certificates with
  | [] => ret processedCertificates
  | certificate :: rest =>
      processed <- attempt template certificate processedCertificates ;;
      for_of template rest processed
  end.

(** Rendering, publishing or the status update of this certificate fails
    with [message] when its [try] starts in world [w]. *)
Definition fails_with (template : option CertificateTemplate.row) (w : World)
    (certificate : Certificate.row) (message : string) : Prop :=
  rendering template certificate = Throw message
  \/ exists htmlContent,
       rendering template certificate = Normal htmlContent
       /\ (snd (upload (certificateFileName certificate) (blob htmlContent) w)
           = Throw message
           \/ (snd (upload (certificateFileName certificate)
                      (blob htmlContent) w) = Normal tt
               /\ generated_update_error env (Certificate.id certificate)
                  = Some message)).

(** Does the [try] of this certificate, started in world [w], run to its
    end? *)
Definition succeeds (template : option CertificateTemplate.row) (w : World)
    (certificate : Certificate.row) : bool :=
  match snd (generate template certificate w) with
  | Normal _ => true
  | Throw _ => false
  end.

(** Line 111 *)
Definition batch_status (processed total : nat) : string :=
  if Nat.eqb processed total then "completed" else "partial".

(** Lines 108-117 *)
Definition update_batch (batchId : string) (status : string)
    (generated : nat) : M unit :=
  fun w =>
    match batch_update_error env with
    | Some message => (w, Throw message)
    | None =>
        (set_certificate_batches
           (map (fun b =>
                   if String.eqb (CertificateBatch.id b) batchId
                   then CertificateBatch.update status (Z.of_nat generated)
                          (now env) b
                   else b)
              (certificate_batches w)) w,
         Normal tt)
    end.

(** Lines 14-141 *)
Definition run (batchId : string) : M Response :=
  try_catch
    (bt <- select_batch batchId ;;
     certificates <- select_pending batchId ;;
     processedCertificates <- for_of (snd bt) certificates [] ;;
     update_batch batchId
       (batch_status (List.length processedCertificates)
          (List.length certificates))
       (List.length processedCertificates) ;;;
     ret (Success (List.length processedCertificates)
            (List.length certificates) batchId))
    (fun message => ret (Failure message)).

(** The function passed to [serve]. *)
Definition serve (req : Request) : M Response :=
  match req with
  | OPTIONS => ret Ok
  | POST batchId => run batchId
  end.

End Serve.

End Handler.

(* ------------------------------------------------------------------ *)
(** ** The statements of the specification that the function does not meet,
    as they are worded *)

Module Stated.
Import Js Db Handler.
Open Scope string_scope.

(** A certificate whose rendering, publishing or status update fails always
    ends [failed] with the message. *)
Definition failure_isolation_as_worded : Prop :=
  forall beyond env batchId w bt i c m,
    NoDup (map Certificate.id (certificates w)) ->
    snd (select_batch env batchId w) = Normal bt ->
    certificates_select_error env = None ->
    nth_error (certificates w) i = Some c ->
    is_pending batchId c = true ->
    fails_with beyond env (snd bt) w c m ->
    exists c',
      nth_error (certificates (fst (run beyond env batchId w))) i = Some c'
      /\ Certificate.status c' = "failed"
      /\ Certificate.error_message c' = Some m.

(** The batch is [completed] exactly when every attempted certificate
    succeeded and at least one was attempted. *)
Definition finalization_rule_as_worded : Prop :=
  forall beyond env batchId w S N b,
    snd (run beyond env batchId w) = Normal (Success S N batchId) ->
    In b (certificate_batches (fst (run beyond env batchId w))) ->
    CertificateBatch.id b = batchId ->
    (CertificateBatch.status b = "completed" <-> S = N /\ 0 < N)
    /\ CertificateBatch.generated_certificates b = Z.of_nat S.

(** The result does not depend on the order of the entries, for every
    template and every mapping. *)
Definition order_independence_as_worded : Prop :=
  forall beyond T D D',
    NoDup (map fst D) -> Permutation D D' ->
    Render.htmlContent beyond (Some T) (Some D)
    = Render.htmlContent beyond (Some T) (Some D').

(** Rendering the rendering again changes nothing, for every template, as
    soon as the values carry no marker text; here the values carry no brace
    at all and no [$], and the keys are literal. *)
Definition idempotent_rendering_as_worded : Prop :=
  forall beyond T D once,
    Template.literal_keys D = true ->
    Template.inert_values D = true ->
    Render.htmlContent beyond (Some T) (Some D) = Normal (Some once) ->
    Render.htmlContent beyond (Some once) (Some D) = Normal (Some once).

End Stated.

(* ------------------------------------------------------------------ *)
(** ** Concrete inputs *)

Module Examples.
Import Js Db Handler.
Open Scope string_scope.

(** Services that answer every call. *)
Definition calm : Env :=
  {| batch_select_error := None;
     single_error := "JSON object requested, multiple (or no) rows returned";
     certificates_select_error := None;
     upload_error := fun _ => None;
     exists_error := "The resource already exists";
     getPublicUrl := fun name => "https://project.example/certificates/" ++ name;
     generated_update_error := fun _ => None;
     failed_update_error := fun _ => None;
     batch_update_error := None;
     now := "2025-07-05T10:00:00Z" |}.

(** Services that have lost the table of certificates: both updates of a
    row are refused. *)
Definition certificates_down : Env :=
  {| batch_select_error := None;
     single_error := single_error calm;
     certificates_select_error := None;
     upload_error := fun _ => None;
     exists_error := exists_error calm;
     getPublicUrl := getPublicUrl calm;
     generated_update_error := fun _ => Some "connection lost";
     failed_update_error := fun _ => Some "connection lost";
     batch_update_error := None;
     now := now calm |}.

(** Services that refuse the upload of the second certificate. *)
Definition second_upload_refused : Env :=
  {| batch_select_error := None;
     single_error := single_error calm;
     certificates_select_error := None;
     upload_error :=
       fun name =>
         if String.eqb name "certificate_c2.html" then Some "quota exceeded"
         else None;
     exists_error := exists_error calm;
     getPublicUrl := getPublicUrl calm;
     generated_update_error := fun _ => None;
     failed_update_error := fun _ => None;
     batch_update_error := None;
     now := now calm |}.

(** Services that refuse the closing update. *)
Definition batches_down : Env :=
  {| batch_select_error := None;
     single_error := single_error calm;
     certificates_select_error := None;
     upload_error := fun _ => None;
     exists_error := exists_error calm;
     getPublicUrl := getPublicUrl calm;
     generated_update_error := fun _ => None;
     failed_update_error := fun _ => None;
     batch_update_error := Some "connection lost";
     now := now calm |}.

Definition template : CertificateTemplate.row :=
  {| CertificateTemplate.id := "t1";
     CertificateTemplate.user_id := "u1";
     CertificateTemplate.name := "Course";
     CertificateTemplate.template_content :=
       Some (str "Hello {{name}}, you scored {{score}}") |}.

Definition batch : CertificateBatch.row :=
  {| CertificateBatch.id := "b1";
     CertificateBatch.user_id := "u1";
     CertificateBatch.template_id := "t1";
     CertificateBatch.batch_name := "Spring";
     CertificateBatch.total_certificates := 3;
     CertificateBatch.generated_certificates := 0;
     CertificateBatch.status := "pending";
     CertificateBatch.batch_zip_url := None;
     CertificateBatch.error_message := None;
     CertificateBatch.created_at := "2025-07-04T15:11:35Z";
     CertificateBatch.updated_at := "2025-07-04T15:11:35Z" |}.

Definition certificate (id status : string) (data : option Render.data)
    : Certificate.row :=
  {| Certificate.id := id;
     Certificate.batch_id := "b1";
     Certificate.user_id := "u1";
     Certificate.recipient_name := "Unknown";
     Certificate.recipient_email := None;
     Certificate.certificate_data := data;
     Certificate.certificate_url := None;
     Certificate.status := status;
     Certificate.error_message := None;
     Certificate.created_at := "2025-07-04T15:11:36Z" |}.

Definition ana : Render.data :=
  [(str "name", VStr (str "Ana")); (str "score", VNum 95 eq_refl)].

(** A batch of three pending certificates, the third without data, and one
    certificate generated earlier. *)
Definition world : World :=
  {| certificate_templates := [template];
     certificate_batches := [batch];
     certificates :=
       [certificate "c1" "pending" (Some ana);
        certificate "c2" "pending" (Some [(str "name", VStr (str "Bo"))]);
        certificate "c3" "pending" None;
        certificate "c0" "generated" (Some ana)];
     bucket := [] |}.

(** The same batch with nothing left pending. *)
Definition settled : World :=
  {| certificate_templates := [template];
     certificate_batches := [batch];
     certificates := [certificate "c0" "generated" (Some ana)];
     bucket := [] |}.

(** A value that is the marker of the next key. *)
Definition chained : Render.data :=
  [(str "a", VStr (str "{{b}}")); (str "b", VStr (str "X"))].

(** Braces of the template that close around a value. *)
Definition nested : Render.data :=
  [(str "a", VStr (str "y")); (str "b", VStr (str "a"))].

(** The template of the scenario, with a single brace left in. *)
Definition scenario : list Template.token :=
  map Template.Char (str "Hello ")
  ++ [Template.Marker (str "name")]
  ++ map Template.Char (str ", you scored ")
  ++ [Template.Marker (str "score")]
  ++ map Template.Char (str " { ") ++ [Template.Marker (str "motto")]
  ++ map Template.Char (str " }").

End Examples.

(* ------------------------------------------------------------------ *)
(** ** Columns of a certificate that no update of the function names *)

Module CertificateColumns.

Definition other_columns (c : Certificate.row) :=
  (Certificate.id c, Certificate.batch_id c, Certificate.user_id c,
   Certificate.recipient_name c, Certificate.recipient_email c,
   Certificate.certificate_data c, Certificate.created_at c).

(** The number of rows that are pending for the batch in the first table
    and [generated] at the same place in the second. *)
Definition moved_to_generated (batchId : string)
    (before after : list Certificate.row) : nat :=
  List.length
    (filter (fun p =>
               Handler.is_pending batchId (fst p)
               && String.eqb (Certificate.status (snd p)) "generated")
       (combine before after)).

End CertificateColumns.

(* ------------------------------------------------------------------ *)
(** ** The history page (src/pages/History.tsx) *)

Module History.
Open Scope string_scope.

(** [getStatusColor], lines 114-125: the classes of the status badge. *)
Definition getStatusColor (status : string) : string :=
  if String.eqb status "completed" then
    "bg-green-100 text-green-800 dark:bg-green-900 dark:text-green-200"
  else if String.eqb status "processing" then
    "bg-yellow-100 text-yellow-800 dark:bg-yellow-900 dark:text-yellow-200"
  else if String.eqb status "failed" then
    "bg-red-100 text-red-800 dark:bg-red-900 dark:text-red-200"
  else
    "bg-gray-100 text-gray-800 dark:bg-gray-900 dark:text-gray-200".

End History.

(* ------------------------------------------------------------------ *)
(** ** Conditions on keys and texts *)

Module Conditions.
Import Js.

(** The key is one the fragment of [Js] gives a pattern to. *)
Definition in_fragment (k : text) : bool :=
  match placeholder_regexp k with
  | Some _ => true
  | None => false
  end.

(** The text holds no [{{]. *)
Fixpoint no_marker_start (h : text) : bool :=
  match h with
  | [] => true
  | c :: t =>
      match t with
      | [] => true
      | d :: _ => negb (is_char "{" c && is_char "{" d) && no_marker_start t
      end
  end.

Definition dollar_free (r : text) : bool :=
  forallb (fun c => negb (is_char "$" c)) r.

Definition open_free (a : text) : bool :=
  forallb (fun c => negb (is_char "{" c)) a.

End Conditions.

(* ------------------------------------------------------------------ *)
(** ** The template editor (src/pages/CreateTemplate.tsx) *)

Module CreateTemplate.
Import Js.

(** The state the handlers of the page read and write: the list of
    placeholder names, the text of the input field, and the
    [template_content] of the form. *)
Record State : Type := {
  placeholders : list text;
  newPlaceholder : text;
  template_content : text
}.

(** Lines 103-113; the default template of the form is a parameter. *)
Definition initial (defaultHtmlTemplate : text) : State :=
  {| placeholders :=
       [str "recipientName"; str "courseName"; str "completionDate"];
     newPlaceholder := [];
     template_content := defaultHtmlTemplate |}.

(** [placeholders.includes(name)] *)
Definition includes (names : list text) (name : text) : bool :=
  existsb (fun q => text_eqb q name) names.

(** A string is truthy when it is not empty. *)
Definition truthy (s : text) : bool :=
  match s with
  | [] => false
  | _ :: _ => true
  end.

(** Lines 117-122 *)
Definition addPlaceholder (st : State) : State :=
  if truthy (newPlaceholder st)
     && negb (includes (placeholders st) (newPlaceholder st))
  then {| placeholders := placeholders st ++ [newPlaceholder st];
          newPlaceholder := [];
          template_content := template_content st |}
  else st.

(** Lines 124-126 *)
Definition removePlaceholder (placeholder : text) (st : State) : State :=
  {| placeholders :=
       filter (fun p => negb (text_eqb p placeholder)) (placeholders st);
     newPlaceholder := newPlaceholder st;
     template_content := template_content st |}.

(** Lines 128-132 *)
Definition insertPlaceholder (placeholder : text) (st : State) : State :=
  {| placeholders := placeholders st;
     newPlaceholder := newPlaceholder st;
     template_content := template_content st ++ Js.placeholder placeholder |}.

(** What the user can do on the page: type in the input field, press the
    add button (or Enter), click the cross or the badge of a name, edit the
    template. *)
Inductive Event : Type :=
| TypeName (s : text)
| Add
| Remove (placeholder : text)
| Insert (placeholder : text)
| EditContent (content : text).

Definition step (st : State) (e : Event) : State :=
  match e with
  | TypeName s =>
      {| placeholders := placeholders st;
         newPlaceholder := s;
         template_content := template_content st |}
  | Add => addPlaceholder st
  | Remove p => removePlaceholder p st
  | Insert p => insertPlaceholder p st
  | EditContent c =>
      {| placeholders := placeholders st;
         newPlaceholder := newPlaceholder st;
         template_content := c |}
  end.

Definition after (events : list Event) (st : State) : State :=
  fold_left step events st.

(** The list of names is free of duplicates and of the empty name. *)
Definition tidy (st : State) : Prop :=
  NoDup (placeholders st) /\ ~ In [] (placeholders st).

Section Preview.

(** The engine outside the fragment, and [String.prototype.toUpperCase]. *)
Variable beyond : text -> text -> text -> completion text.
Variable toUpperCase : text -> text.

(** The replacement of line 138: [`[${placeholder.toUpperCase()}]`] *)
Definition bracketed (placeholder : text) : text :=
  str "[" ++ toUpperCase placeholder ++ str "]".

(** Lines 134-141 *)
Fixpoint getPreviewContent_from (names : list text) (content : text)
    : completion text :=
  match names with
  | [] => Normal content
  | placeholder :: rest =>
      match
        match placeholder_regexp placeholder with
        | Some regex => Normal (replace regex (bracketed placeholder) content)
        | None =>
            beyond (Js.placeholder placeholder) (bracketed placeholder)
              content
        end
      with
      | Normal content' => getPreviewContent_from rest content'
      | Throw m => Throw m
      end
  end.

Definition getPreviewContent (st : State) : completion text :=
  getPreviewContent_from (placeholders st) (template_content st).

(** The data under which the loop of the function is the loop of the
    preview. *)
Definition preview_data (names : list text) : Render.data :=
  map (fun p => (p, VStr (bracketed p))) names.

End Preview.

End CreateTemplate.

(* ------------------------------------------------------------------ *)
(** ** The search boxes (src/unnamed/part_001, src/pages/History.tsx) *)

Module Search.

(** The strings of the pages are sequences of UTF-16 code units, numbers
    below 65536.  The search compares code units and computes nothing from
    them, so the bound is not carried along. *)
Definition code_unit := N.
Definition utf16 := list code_unit.

(** The code units of a literal written in ASCII *)
Definition utf16_of (s : string) : utf16 :=
  map N_of_ascii (list_ascii_of_string s).

Fixpoint starts_with (t s : utf16) : bool :=
  match t, s with
  | [], _ => true
  | _ :: _, [] => false
  | c :: t', d :: s' => N.eqb c d && starts_with t' s'
  end.

(** [s.includes(t)] *)
Fixpoint includes (s t : utf16) : bool :=
  starts_with t s
  || match s with
     | [] => false
     | _ :: s' => includes s' t
     end.

(** A string is truthy when it is not empty. *)
Definition truthy (s : utf16) : bool :=
  match s with
  | [] => false
  | _ :: _ => true
  end.

(** The fields of a template the list of templates reads. *)
Record template : Type := {
  template_id : string;
  name : utf16;
  description : option utf16
}.

(** The fields of a batch the history reads; [template_name] is [None]
    when the batch comes without its template. *)
Record batch : Type := {
  batch_name : utf16;
  template_name : option utf16
}.

(** part_001, line 76: the list after a template is deleted *)
Definition deleteTemplate (templateId : string) (templates : list template)
    : list template :=
  filter (fun t => negb (String.eqb (template_id t) templateId)) templates.

Section Pages.

(** [String.prototype.toLowerCase] on a string that is not empty: the
    case conversion of the Unicode standard.  It depends on the context of
    a character (a capital sigma at the end of a word) and can change the
    length, so it is not a map over code units and nothing is assumed of
    it. *)
Variable lower_case : utf16 -> utf16.

(** [s.toLowerCase()]; the empty string has nothing to convert. *)
Definition toLowerCase (s : utf16) : utf16 :=
  match s with
  | [] => []
  | _ :: _ => lower_case s
  end.

(** The test both pages make on a row: the term occurs in the first text,
    or the second text is there, is not empty, and the term occurs in it;
    all in lower case. *)
Definition found (searchTerm first : utf16) (second : option utf16) : bool :=
  includes (toLowerCase first) (toLowerCase searchTerm)
  || match second with
     | Some d => truthy d && includes (toLowerCase d) (toLowerCase searchTerm)
     | None => false
     end.

(** part_001, lines 38-44 *)
Definition filteredTemplates (searchTerm : utf16) (templates : list template)
    : list template :=
  filter (fun t => found searchTerm (name t) (description t)) templates.

(** History.tsx, lines 41-46 *)
Definition filteredBatches (searchTerm : utf16) (batches : list batch)
    : list batch :=
  filter (fun b => found searchTerm (batch_name b) (template_name b)) batches.

End Pages.

End Search.

(* ------------------------------------------------------------------ *)
(** ** More concrete inputs *)

Module MoreExamples.
Import Js Db Handler.
Open Scope string_scope.

(** Services that take the upload and the marking of a row as [failed], and
    refuse the update to [generated]. *)
Definition rows_read_only : Env :=
  {| batch_select_error := None;
     single_error := single_error Examples.calm;
     certificates_select_error := None;
     upload_error := fun _ => None;
     exists_error := exists_error Examples.calm;
     getPublicUrl := getPublicUrl Examples.calm;
     generated_update_error := fun _ => Some "read-only transaction";
     failed_update_error := fun _ => None;
     batch_update_error := None;
     now := now Examples.calm |}.

(** The batch of [Examples.world] when the first certificate was published
    once before. *)
Definition republished : World :=
  {| certificate_templates := certificate_templates Examples.world;
     certificate_batches := certificate_batches Examples.world;
     certificates := certificates Examples.world;
     bucket := [("certificate_c1.html", str "old")] |}.

Definition blank_template : CertificateTemplate.row :=
  {| CertificateTemplate.id := "t1";
     CertificateTemplate.user_id := "u1";
     CertificateTemplate.name := "Course";
     CertificateTemplate.template_content := None |}.

(** The batch of [Examples.world] under a template without content. *)
Definition blank : World :=
  {| certificate_templates := [blank_template];
     certificate_batches := certificate_batches Examples.world;
     certificates := certificates Examples.world;
     bucket := [] |}.

(** Upper case of the letters a-z, for the examples of the preview. *)
Definition upper (s : text) : text :=
  map (fun c =>
         let n := nat_of_ascii c in
         if Nat.leb 97 n && Nat.leb n 122 then ascii_of_nat (n - 32) else c)
    s.

(** Lower case of the letters A-Z only, for the examples of the search. *)
Definition ascii_lower (s : Search.utf16) : Search.utf16 :=
  map (fun c => if (N.leb 65 c && N.leb c 90)%bool then (c + 32)%N else c) s.

Definition diploma : Search.template :=
  {| Search.template_id := "t2";
     Search.name := Search.utf16_of "Diploma";
     Search.description := None |}.

Definition course : Search.template :=
  {| Search.template_id := "t1";
     Search.name := Search.utf16_of "Course Completion";
     Search.description := Some (Search.utf16_of "For every course") |}.

End MoreExamples.

(* ------------------------------------------------------------------ *)
(** ** Facts about the built-ins *)

Module JsFacts.
Import Js.

Lemma is_char_true (d c : ascii) :
  is_char (String d EmptyString) c = true <-> c = d.
Proof. simpl. apply Ascii.eqb_eq. Qed.

Lemma is_char_false (d c : ascii) :
  is_char (String d EmptyString) c = false <-> c <> d.
Proof. simpl. apply Ascii.eqb_neq. Qed.

Lemma text_eqb_true (a b : text) : text_eqb a b = true <-> a = b.
Proof.
  unfold text_eqb. destruct (list_eq_dec ascii_dec a b); split;
    congruence.
Qed.

Lemma text_eqb_false (a b : text) : text_eqb a b = false <-> a <> b.
Proof.
  unfold text_eqb. destruct (list_eq_dec ascii_dec a b); split;
    congruence.
Qed.

Lemma text_eqb_refl (a : text) : text_eqb a a = true.
Proof. now apply text_eqb_true. Qed.

(** A replacement without [$] is inserted as it is. *)
Lemma get_substitution_plain (matched before after r : text) :
  forallb (fun c => negb (is_char "$" c)) r = true ->
  get_substitution matched before after r = r.
Proof.
  induction r as [|c r IH]; simpl; [reflexivity|].
  intros H. apply andb_true_iff in H as [Hc Hr].
  apply negb_true_iff in Hc. simpl in Hc. rewrite Hc.
  now rewrite IH.
Qed.

Lemma match_here_literal (m rest : text) :
  match_here (map Lit m) (m ++ rest) = Some rest.
Proof.
  induction m as [|c m IH]; simpl; [reflexivity|].
  now rewrite Ascii.eqb_refl.
Qed.

Lemma match_here_literal_inv (m s rest : text) :
  match_here (map Lit m) s = Some rest -> s = m ++ rest.
Proof.
  revert s. induction m as [|c m IH]; simpl; intros s H.
  - now inversion H.
  - destruct s as [|d s]; [discriminate|].
    destruct (Ascii.eqb_spec c d) as [->|]; [|discriminate].
    now rewrite (IH s H).
Qed.

Lemma match_here_length (p : list atom) (s rest : text) :
  match_here p s = Some rest ->
  s = firstn (List.length p) s ++ rest.
Proof.
  revert s. induction p as [|a p IH]; simpl; intros s H.
  - now inversion H.
  - destruct s as [|d s]; [discriminate|].
    destruct (atom_matches a d); [|discriminate].
    simpl. now rewrite <- (IH s H).
Qed.

(** Once a match is found the scan resumes right after it. *)
Lemma replace_from_skip (p : list atom) (r m before s : text) :
  replace_from p r (List.length m) before (m ++ s)
  = replace_from p r 0 (before ++ m) s.
Proof.
  revert before. induction m as [|c m IH]; intros before; simpl.
  - now rewrite app_nil_r.
  - rewrite IH. now rewrite <- app_assoc.
Qed.

(** Where the pattern does not match, the character is copied. *)
Lemma replace_from_copy (p : list atom) (r before s : text) (c : ascii) :
  match_here p (c :: s) = None ->
  replace_from p r 0 before (c :: s)
  = c :: replace_from p r 0 (before ++ [c]) s.
Proof. intros H. simpl replace_from. now rewrite H. Qed.

(** Where it matches, the expansion of the replacement is inserted. *)
Lemma replace_from_match (p : list atom) (r before s after : text)
    (c : ascii) :
  match_here p (c :: s) = Some after ->
  replace_from p r 0 before (c :: s)
  = get_substitution (firstn (List.length p) (c :: s)) before after r
    ++ replace_from p r (List.length p - 1) (before ++ [c]) s.
Proof. intros H. simpl replace_from. now rewrite H. Qed.

(** A subject in which the pattern matches nowhere is returned as it is. *)
Lemma replace_from_no_match (p : list atom) (r before s : text) :
  (forall a b, s = a ++ b -> b <> [] -> match_here p b = None) ->
  replace_from p r 0 before s = s.
Proof.
  revert before. induction s as [|c s IH]; intros before H; [reflexivity|].
  rewrite replace_from_copy.
  - f_equal. apply IH. intros a b -> Hb. apply (H (c :: a) b); auto.
  - apply (H [] (c :: s)); [reflexivity|discriminate].
Qed.

End JsFacts.

(* ------------------------------------------------------------------ *)
(** ** The sequential loop against the one-pass substitution *)

Module TemplateFacts.
Import Js Render Template JsFacts.

Lemma flatten_app (a b : list token) : flatten (a ++ b) = flatten a ++ flatten b.
Proof. apply flat_map_app. Qed.

Lemma flatten_chars (s : text) : flatten (map Char s) = s.
Proof. induction s as [|c s IH]; simpl; [reflexivity|]. now f_equal. Qed.

Lemma syntax_char_brace (c : ascii) : syntax_char c = false -> brace c = false.
Proof.
  intros H. unfold brace. apply orb_false_iff. split; apply is_char_false;
    intros ->; discriminate H.
Qed.

Lemma syntax_char_dot (c : ascii) :
  syntax_char c = false -> is_char "." c = false.
Proof. intros H. apply is_char_false. intros ->. discriminate H. Qed.

Lemma literal_key_brace_free (k : text) :
  literal_key k = true -> brace_free k = true.
Proof.
  unfold literal_key, brace_free. intros H.
  apply andb_true_iff in H as [_ H]. rewrite forallb_forall in *.
  intros c Hc. specialize (H c Hc). apply negb_true_iff in H.
  apply negb_true_iff. now apply syntax_char_brace.
Qed.

Lemma key_atoms_literal (k : text) :
  forallb (fun c => negb (syntax_char c)) k = true ->
  key_atoms k = Some (map Lit k).
Proof.
  induction k as [|c k IH]; simpl; [reflexivity|].
  intros H. apply andb_true_iff in H as [Hc Hk].
  apply negb_true_iff in Hc. rewrite (IH Hk).
  pose proof (syntax_char_dot c Hc) as Hd. simpl in Hd. rewrite Hd.
  now rewrite Hc.
Qed.

(** For a literal key the pattern is the marker itself, character by
    character. *)
Lemma literal_key_regexp (k : text) :
  literal_key k = true ->
  placeholder_regexp k = Some (map Lit (placeholder k)).
Proof.
  unfold literal_key, placeholder_regexp. intros H.
  apply andb_true_iff in H as [Hq Hk]. apply negb_true_iff in Hq.
  rewrite Hq, (key_atoms_literal k Hk). unfold placeholder.
  now rewrite !map_app.
Qed.

Lemma brace_free_cons (c : ascii) (s : text) :
  brace_free (c :: s) = true ->
  c <> "{"%char /\ c <> "}"%char /\ brace_free s = true.
Proof.
  unfold brace_free. simpl. intros H.
  apply andb_true_iff in H as [Hc Hs]. apply negb_true_iff in Hc.
  apply orb_false_iff in Hc as [H1 H2].
  repeat split; auto; intros ->; discriminate.
Qed.

(** A brace-free name ends at the first closing brace. *)
Lemma brace_free_name_unique (a b x y : text) :
  brace_free a = true -> brace_free b = true ->
  a ++ "}"%char :: x = b ++ "}"%char :: y -> a = b.
Proof.
  revert b. induction a as [|c a IH]; intros [|d b] Ha Hb E; simpl in E.
  - reflexivity.
  - apply brace_free_cons in Hb as (_ & Hd & _). congruence.
  - apply brace_free_cons in Ha as (_ & Hc & _). congruence.
  - apply brace_free_cons in Ha as (_ & _ & Ha).
    apply brace_free_cons in Hb as (_ & _ & Hb).
    injection E as -> E. f_equal. now apply IH.
Qed.

Lemma placeholder_cons (n : text) :
  placeholder n = "{"%char :: "{"%char :: n ++ str "}}".
Proof. reflexivity. Qed.

(** The pattern of a key matches at a marker only when the names agree. *)
Lemma match_here_other_marker (k n s : text) :
  brace_free k = true -> brace_free n = true -> k <> n ->
  match_here (map Lit (placeholder k)) (placeholder n ++ s) = None.
Proof.
  intros Hk Hn Hkn.
  destruct (match_here (map Lit (placeholder k)) (placeholder n ++ s))
    as [rest|] eqn:E; [|reflexivity].
  apply match_here_literal_inv in E. exfalso. apply Hkn.
  rewrite !placeholder_cons in E. simpl in E.
  injection E as E. rewrite <- !app_assoc in E. simpl in E.
  symmetry. eapply brace_free_name_unique; eauto.
Qed.

(** The pattern of a key does not match at a character that is not [{]. *)
Lemma match_here_not_open (k s : text) (c : ascii) :
  c <> "{"%char -> match_here (map Lit (placeholder k)) (c :: s) = None.
Proof.
  intros Hc. rewrite placeholder_cons.
  cbn [map match_here atom_matches].
  destruct (Ascii.eqb_spec "{"%char c); congruence.
Qed.

(** Nor at a [{] that no second [{] follows. *)
Lemma match_here_single_open (k s : text) :
  hd_error s <> Some "{"%char ->
  match_here (map Lit (placeholder k)) ("{"%char :: s) = None.
Proof.
  intros Hs. rewrite placeholder_cons.
  cbn [map match_here atom_matches]. rewrite Ascii.eqb_refl.
  destruct s as [|d s]; [reflexivity|].
  destruct (Ascii.eqb_spec "{"%char d) as [<-|]; [|reflexivity].
  now elim Hs.
Qed.

Lemma replace_from_copy_run (k r before u s : text) :
  Forall (fun c => c <> "{"%char) u ->
  replace_from (map Lit (placeholder k)) r 0 before (u ++ s)
  = u ++ replace_from (map Lit (placeholder k)) r 0 (before ++ u) s.
Proof.
  intros Hu. revert before.
  induction Hu as [|c u Hc Hu IH]; intros before.
  - now rewrite app_nil_r.
  - rewrite <- app_comm_cons.
    rewrite replace_from_copy by now apply match_here_not_open.
    rewrite IH, <- app_assoc. reflexivity.
Qed.

Lemma name_tail_no_open (n : text) :
  brace_free n = true -> Forall (fun c => c <> "{"%char) (n ++ str "}}").
Proof.
  intros Hn. apply Forall_app. split.
  - induction n as [|c n IH]; constructor.
    + now apply brace_free_cons in Hn.
    + apply IH. now apply brace_free_cons in Hn.
  - repeat constructor; discriminate.
Qed.

(** A marker of another name is copied, and the scan goes on behind it. *)
Lemma replace_from_other_marker (k n r before s : text) :
  brace_free k = true -> brace_free n = true -> k <> n ->
  replace_from (map Lit (placeholder k)) r 0 before (placeholder n ++ s)
  = placeholder n
    ++ replace_from (map Lit (placeholder k)) r 0
         (before ++ placeholder n) s.
Proof.
  intros Hk Hn Hkn.
  pose proof (match_here_other_marker k n s Hk Hn Hkn) as H0.
  pose proof (name_tail_no_open n Hn) as Htail.
  rewrite (placeholder_cons n) in H0 |- *. cbn [app] in H0 |- *.
  rewrite replace_from_copy by exact H0.
  rewrite replace_from_copy.
  - rewrite replace_from_copy_run by exact Htail.
    rewrite <- !app_assoc. reflexivity.
  - apply match_here_single_open.
    destruct n as [|c n]; simpl; [discriminate|].
    apply brace_free_cons in Hn as (Hc & _). congruence.
Qed.

Lemma opens_flatten (toks : list token) :
  opens toks = false -> hd_error (flatten toks) <> Some "{"%char.
Proof.
  destruct toks as [|[c|n] toks]; simpl; try discriminate.
  intros H. apply Ascii.eqb_neq in H. congruence.
Qed.

(** One turn of the loop on a well-formed template is the one-pass
    substitution of that single key. *)
Lemma replace_from_tokens (k : text) (v : value) (toks : list token) :
  literal_key k = true -> inert_value v = true ->
  well_formed toks = true ->
  forall before,
    replace_from (map Lit (placeholder k)) (String_ v) 0 before (flatten toks)
    = flatten (substitute_markers [(k, v)] toks).
Proof.
  intros Hk Hv.
  assert (Hplain : forallb (fun c => negb (is_char "$" c)) (String_ v) = true).
  { unfold inert_value in Hv. rewrite forallb_forall in *.
    intros c Hc. specialize (Hv c Hc). now apply andb_true_iff in Hv. }
  pose proof (literal_key_brace_free k Hk) as Hkb.
  induction toks as [|[c|n] toks IH]; intros Hwf before.
  - reflexivity.
  - cbn [well_formed] in Hwf. apply andb_true_iff in Hwf as [Hc Hwf].
    cbn [flatten flat_map token_text substitute_markers substitute_token app].
    rewrite replace_from_copy.
    + f_equal. now apply IH.
    + destruct (Ascii.eqb_spec c "{"%char) as [->|Hne].
      * apply match_here_single_open. apply opens_flatten.
        cbn in Hc. now apply negb_true_iff in Hc.
      * now apply match_here_not_open.
  - cbn [well_formed] in Hwf. apply andb_true_iff in Hwf as [Hn Hwf].
    cbn [flatten flat_map token_text substitute_markers substitute_token
         lookup].
    fold (flatten toks). fold (substitute_markers [(k, v)] toks).
    destruct (text_eqb k n) eqn:E.
    + apply text_eqb_true in E. subst n.
      rewrite flatten_app, flatten_chars.
      assert (Eq : placeholder k ++ flatten toks
                   = "{"%char :: ("{"%char :: k ++ str "}}") ++ flatten toks)
        by reflexivity.
      rewrite Eq.
      rewrite (replace_from_match _ _ _ _ (flatten toks))
        by (rewrite <- Eq; apply match_here_literal).
      rewrite get_substitution_plain by exact Hplain.
      f_equal.
      replace (List.length (map Lit (placeholder k)) - 1)
        with (List.length ("{"%char :: k ++ str "}}"))
        by (rewrite length_map, placeholder_cons; simpl; lia).
      rewrite replace_from_skip. now apply IH.
    + apply text_eqb_false in E.
      rewrite replace_from_other_marker by assumption.
      rewrite flatten_app. cbn [flatten flat_map token_text].
      rewrite app_nil_r. f_equal. now apply IH.
Qed.

Lemma substitute_markers_app (D : data) (a b : list token) :
  substitute_markers D (a ++ b)
  = substitute_markers D a ++ substitute_markers D b.
Proof. apply flat_map_app. Qed.

Lemma substitute_markers_chars (D : data) (s : text) :
  substitute_markers D (map Char s) = map Char s.
Proof. induction s as [|c s IH]; simpl; [reflexivity|]. now f_equal. Qed.

Lemma substitute_markers_nil (toks : list token) :
  substitute_markers [] toks = toks.
Proof.
  induction toks as [|[c|n] toks IH]; [reflexivity| |];
    cbn [substitute_markers flat_map substitute_token lookup app];
    fold (substitute_markers [] toks); now rewrite IH.
Qed.

(** Entry by entry, the one-pass substitution of the whole mapping. *)
Lemma substitute_markers_cons (k : text) (v : value) (D : data)
    (toks : list token) :
  substitute_markers D (substitute_markers [(k, v)] toks)
  = substitute_markers ((k, v) :: D) toks.
Proof.
  induction toks as [|[c|n] toks IH].
  - reflexivity.
  - cbn. now f_equal.
  - change (substitute_markers [(k, v)] (Marker n :: toks))
      with (substitute_token [(k, v)] (Marker n)
            ++ substitute_markers [(k, v)] toks).
    change (substitute_markers ((k, v) :: D) (Marker n :: toks))
      with (substitute_token ((k, v) :: D) (Marker n)
            ++ substitute_markers ((k, v) :: D) toks).
    rewrite substitute_markers_app, IH. f_equal.
    cbn [substitute_token lookup]. destruct (text_eqb k n).
    + apply substitute_markers_chars.
    + cbn. now rewrite app_nil_r.
Qed.

(** Substituting twice in one pass is substituting once. *)
Lemma substitute_markers_twice (D : data) (toks : list token) :
  substitute_markers D (substitute_markers D toks) = substitute_markers D toks.
Proof.
  induction toks as [|[c|n] toks IH].
  - reflexivity.
  - cbn. now f_equal.
  - change (substitute_markers D (Marker n :: toks))
      with (substitute_token D (Marker n) ++ substitute_markers D toks).
    rewrite substitute_markers_app, IH. f_equal.
    cbn [substitute_token]. destruct (lookup D n) eqn:E.
    + apply substitute_markers_chars.
    + cbn. rewrite E. reflexivity.
Qed.

Lemma lookup_in (D : data) (k : text) (v : value) :
  lookup D k = Some v -> In (k, v) D.
Proof.
  induction D as [|[k' v'] D IH]; simpl; [discriminate|].
  destruct (text_eqb k' k) eqn:E.
  - apply text_eqb_true in E. intros [= ->]. left. now subst.
  - intros H. right. now apply IH.
Qed.

Lemma in_lookup (D : data) (k : text) (v : value) :
  NoDup (map fst D) -> In (k, v) D -> lookup D k = Some v.
Proof.
  induction D as [|[k' v'] D IH]; simpl; [tauto|].
  intros Hnd [E|Hin]; inversion Hnd as [|? ? Hk' Hnd']; subst.
  - injection E as -> ->. now rewrite text_eqb_refl.
  - destruct (text_eqb k' k) eqn:E; [|now apply IH].
    apply text_eqb_true in E. subst k'. elim Hk'.
    change k with (fst (k, v)). now apply in_map.
Qed.

(** With distinct keys the value of a key does not depend on the order of
    the entries. *)
Lemma lookup_permutation (D D' : data) (k : text) :
  NoDup (map fst D) -> Permutation D D' -> lookup D k = lookup D' k.
Proof.
  intros Hnd Hp.
  assert (Hnd' : NoDup (map fst D')).
  { eapply Permutation_NoDup; [|exact Hnd]. now apply Permutation_map. }
  destruct (lookup D k) as [v|] eqn:E.
  - symmetry. apply in_lookup; [exact Hnd'|].
    eapply Permutation_in; [exact Hp|]. now apply lookup_in.
  - destruct (lookup D' k) as [v'|] eqn:E'; [|reflexivity].
    apply lookup_in in E'. apply Permutation_sym in Hp.
    apply (Permutation_in _ Hp) in E'.
    apply in_lookup in E'; [congruence|exact Hnd].
Qed.

Lemma substitute_markers_permutation (D D' : data) (toks : list token) :
  NoDup (map fst D) -> Permutation D D' ->
  substitute_markers D toks = substitute_markers D' toks.
Proof.
  intros Hnd Hp. unfold substitute_markers. apply flat_map_ext.
  intros [c|n]; [reflexivity|]. cbn.
  now rewrite (lookup_permutation D D' n Hnd Hp).
Qed.

Lemma opens_substitute (D : data) (toks : list token) :
  opens toks = false -> opens (substitute_markers D toks) = false.
Proof. destruct toks as [|[c|n] toks]; cbn; auto. discriminate. Qed.

Lemma well_formed_chars_app (s : text) (toks : list token) :
  forallb (fun c => negb (brace c)) s = true ->
  well_formed toks = true ->
  well_formed (map Char s ++ toks) = true.
Proof.
  intros Hs Hw. induction s as [|c s IH]; [exact Hw|].
  cbn in Hs. apply andb_true_iff in Hs as [Hc Hs].
  cbn [map app well_formed]. rewrite (IH Hs), andb_true_r.
  apply negb_true_iff in Hc. apply orb_false_iff in Hc as [Hc _].
  now rewrite Hc.
Qed.

Lemma inert_value_brace_free (v : value) :
  inert_value v = true -> forallb (fun c => negb (brace c)) (String_ v) = true.
Proof.
  unfold inert_value. rewrite !forallb_forall. intros H c Hc.
  specialize (H c Hc). now apply andb_true_iff in H.
Qed.

(** Inert values leave the template well formed. *)
Lemma well_formed_substitute (D : data) (toks : list token) :
  inert_values D = true -> well_formed toks = true ->
  well_formed (substitute_markers D toks) = true.
Proof.
  intros HD. induction toks as [|[c|n] toks IH]; intros Hw.
  - reflexivity.
  - cbn [well_formed] in Hw. apply andb_true_iff in Hw as [Hc Hw].
    cbn [substitute_markers flat_map substitute_token app well_formed].
    fold (substitute_markers D toks). rewrite (IH Hw), andb_true_r.
    destruct (is_char "{" c); [|reflexivity].
    cbn in Hc |- *. apply negb_true_iff in Hc.
    now rewrite opens_substitute.
  - cbn [well_formed] in Hw. apply andb_true_iff in Hw as [Hn Hw].
    change (substitute_markers D (Marker n :: toks))
      with (substitute_token D (Marker n) ++ substitute_markers D toks).
    cbn [substitute_token]. destruct (lookup D n) as [v|] eqn:E.
    + apply well_formed_chars_app; [|now apply IH].
      apply inert_value_brace_free. apply lookup_in in E.
      unfold inert_values in HD. rewrite forallb_forall in HD.
      exact (HD _ E).
    + cbn [app well_formed]. now rewrite Hn, IH.
Qed.

Section Engine.
Variable beyond : text -> text -> text -> completion text.

(** The loop of the handler over a well-formed template, for literal keys
    and inert values, is the one-pass substitution. *)
Lemma forEach_substitute_markers (D : data) (toks : list token) :
  literal_keys D = true -> inert_values D = true ->
  well_formed toks = true ->
  forEach beyond D (Some (flatten toks))
  = Normal (Some (flatten (substitute_markers D toks))).
Proof.
  revert toks. induction D as [|[k v] D IH]; intros toks Hk Hv Hw.
  - cbn. now rewrite substitute_markers_nil.
  - cbn in Hk, Hv. apply andb_true_iff in Hk as [Hk HkD].
    apply andb_true_iff in Hv as [Hv HvD].
    cbn [forEach replace_placeholder].
    rewrite (literal_key_regexp k Hk). unfold replace.
    rewrite (replace_from_tokens k v toks Hk Hv Hw).
    rewrite IH; auto.
    + now rewrite substitute_markers_cons.
    + apply well_formed_substitute; [|exact Hw].
      cbn. now rewrite Hv.
Qed.

End Engine.

(** The loop over a well-formed template, seen from the handler. *)
Lemma htmlContent_substitute_markers
    (beyond : text -> text -> text -> completion text)
    (D : data) (toks : list token) :
  literal_keys D = true -> inert_values D = true ->
  well_formed toks = true ->
  htmlContent beyond (Some (flatten toks)) (Some D)
  = Normal (Some (flatten (substitute_markers D toks))).
Proof. apply forEach_substitute_markers. Qed.

(** C3, at the failing input: the text of the value is handed to [replace]
    as a replacement pattern, in which [$$] stands for one [$].  Replacing
    the marker by the text of its value gives [Prize: $$500]; the handler
    renders [Prize: $500]. *)
Theorem dollar_patterns_are_expanded :
  forall beyond,
    let toks := map Char (str "Prize: ") ++ [Marker (str "prize")] in
    let D := [(str "prize", VStr (str "$$500"))] in
    flatten toks = str "Prize: {{prize}}"
    /\ flatten (substitute_markers D toks) = str "Prize: $$500"
    /\ htmlContent beyond (Some (flatten toks)) (Some D)
       = Normal (Some (str "Prize: $500")).
Proof. intros beyond. repeat split; reflexivity. Qed.

(** C4, at the failing input: the key [first.name] is read as a pattern
    whose dot matches any character, so the marker of [first_name], a key
    that is not in the mapping, is replaced as well; left as it is, the
    template would still read [{{first_name}} {{last_name}}]. *)
Theorem wildcard_key_replaces_other_marker :
  forall beyond,
    let toks :=
      [Marker (str "first_name"); Char " "; Marker (str "last_name")] in
    let D := [(str "first.name", VStr (str "Ana"))] in
    lookup D (str "first_name") = None
    /\ flatten (substitute_markers D toks)
       = str "{{first_name}} {{last_name}}"
    /\ htmlContent beyond (Some (flatten toks)) (Some D)
       = Normal (Some (str "Ana {{last_name}}")).
Proof. intros beyond. repeat split; reflexivity. Qed.

(** C5 as worded fails: with the value of [a] being the marker of [b], the
    template [{{a}}] renders as [X] when [a] is processed first and as
    [{{b}}] when [b] is. *)
Lemma order_independence_fails : ~ Stated.order_independence_as_worded.
Proof.
  intros H.
  specialize (H no_engine (str "{{a}}") Examples.chained
                (rev Examples.chained)).
  assert (Hnd : NoDup (map fst Examples.chained)).
  { repeat constructor; cbn; intuition discriminate. }
  specialize (H Hnd (Permutation_rev _)).
  vm_compute in H. discriminate H.
Qed.

(** C5, amended: over a template in which every [{{] opens a marker with a
    brace-free name, for distinct keys that the engine reads literally (no
    regular-expression syntax character, and not the body of a quantifier:
    digits, possibly followed by a comma and digits, as in [1], [2024] or
    [1,2]) and values whose text holds no brace and no [$], the result is
    the same in whatever order the entries are processed. *)
Theorem order_independence :
  forall beyond (toks : list token) (D D' : data),
    well_formed toks = true ->
    literal_keys D = true -> inert_values D = true ->
    NoDup (map fst D) -> Permutation D D' ->
    htmlContent beyond (Some (flatten toks)) (Some D)
    = htmlContent beyond (Some (flatten toks)) (Some D').
Proof.
  intros beyond toks D D' Hw Hk Hv Hnd Hp.
  assert (Hk' : literal_keys D' = true).
  { unfold literal_keys in *. rewrite forallb_forall in *. intros kv Hin.
    apply Hk. eapply Permutation_in; [|exact Hin].
    now apply Permutation_sym. }
  assert (Hv' : inert_values D' = true).
  { unfold inert_values in *. rewrite forallb_forall in *. intros kv Hin.
    apply Hv. eapply Permutation_in; [|exact Hin].
    now apply Permutation_sym. }
  rewrite !htmlContent_substitute_markers by assumption.
  now rewrite (substitute_markers_permutation D D' toks Hnd Hp).
Qed.

Lemma order_independence_witness :
  htmlContent no_engine (Some (flatten Examples.scenario)) (Some Examples.ana)
  = htmlContent no_engine (Some (flatten Examples.scenario))
      (Some (rev Examples.ana)).
Proof.
  apply (order_independence no_engine Examples.scenario Examples.ana
           (rev Examples.ana)).
  - reflexivity.
  - reflexivity.
  - reflexivity.
  - repeat constructor; cbn; intuition discriminate.
  - apply Permutation_rev.
Defined.

(** C6 as worded fails: the values [y] and [a] hold no brace, yet in
    [{{{{b}}}}] the value of [b] lands between braces of the template; the
    first rendering is [{{a}}], and rendering it again gives [y]. *)
Lemma idempotent_rendering_fails : ~ Stated.idempotent_rendering_as_worded.
Proof.
  intros H.
  specialize (H no_engine (str "{{{{b}}}}") Examples.nested (str "{{a}}")
                eq_refl eq_refl eq_refl).
  vm_compute in H. discriminate H.
Qed.

(** C6, amended: over a template in which every [{{] opens a marker with a
    brace-free name, for keys that the engine reads literally (no
    regular-expression syntax character, and not the body of a quantifier:
    digits, possibly followed by a comma and digits, as in [1], [2024] or
    [1,2]) and values whose text holds no brace and no [$], rendering the
    rendering again gives the rendering. *)
Theorem idempotent_rendering :
  forall beyond (toks : list token) (D : data),
    well_formed toks = true ->
    literal_keys D = true -> inert_values D = true ->
    exists once,
      htmlContent beyond (Some (flatten toks)) (Some D) = Normal (Some once)
      /\ htmlContent beyond (Some once) (Some D) = Normal (Some once).
Proof.
  intros beyond toks D Hw Hk Hv.
  exists (flatten (substitute_markers D toks)). split.
  - now apply htmlContent_substitute_markers.
  - rewrite htmlContent_substitute_markers; auto.
    + now rewrite substitute_markers_twice.
    + now apply well_formed_substitute.
Qed.

Lemma idempotent_rendering_witness :
  exists once,
    htmlContent no_engine (Some (flatten Examples.scenario))
      (Some Examples.ana) = Normal (Some once)
    /\ htmlContent no_engine (Some once) (Some Examples.ana)
       = Normal (Some once).
Proof.
  apply (idempotent_rendering no_engine Examples.scenario Examples.ana);
    reflexivity.
Defined.

(** The scenarios of the specification, whatever the engine does outside
    the fragment. *)
Example scenario_all_keys :
  forall beyond,
    htmlContent beyond (Some (str "Hello {{name}}, you scored {{score}}"))
      (Some [(str "name", VStr (str "Ana")); (str "score", VNum 95 eq_refl)])
    = Normal (Some (str "Hello Ana, you scored 95")).
Proof. reflexivity. Qed.

Example scenario_missing_key :
  forall beyond,
    htmlContent beyond (Some (str "Hello {{name}}, you scored {{score}}"))
      (Some [(str "name", VStr (str "Ana"))])
    = Normal (Some (str "Hello Ana, you scored {{score}}")).
Proof. reflexivity. Qed.

Example scenario_every_occurrence :
  forall beyond,
    htmlContent beyond (Some (str "{{n}}, {{n}} and {{ok}}"))
      (Some [(str "n", VNum (-7) eq_refl); (str "ok", VBool true)])
    = Normal (Some (str "-7, -7 and true")).
Proof. reflexivity. Qed.

End TemplateFacts.

(* ------------------------------------------------------------------ *)
(** ** Facts about the handler *)

Module HandlerFacts.
Import Js Db Handler.
Open Scope string_scope.

Lemma length_append (a b : string) :
  String.length (a ++ b) = String.length a + String.length b.
Proof. induction a as [|c a IH]; simpl; [reflexivity|]. now rewrite IH. Qed.

Lemma append_cancel_r (a b t : string) : a ++ t = b ++ t -> a = b.
Proof.
  revert b. induction a as [|c a IH]; intros [|d b] E; simpl in E.
  - reflexivity.
  - apply (f_equal String.length) in E. simpl in E.
    rewrite length_append in E. lia.
  - apply (f_equal String.length) in E. simpl in E.
    rewrite length_append in E. lia.
  - injection E as -> E. f_equal. now apply IH.
Qed.

(** Distinct certificates are stored under distinct names. *)
Lemma certificateFileName_inj (c d : Certificate.row) :
  certificateFileName c = certificateFileName d ->
  Certificate.id c = Certificate.id d.
Proof.
  unfold certificateFileName. intros E.
  assert (E' : Certificate.id c ++ ".html" = Certificate.id d ++ ".html").
  { simpl in E. now repeat injection E as E. }
  now apply append_cancel_r in E'.
Qed.

Lemma nth_update_hit (cid : string) (f : Certificate.row -> Certificate.row)
    (cs : list Certificate.row) (i : nat) (r : Certificate.row) :
  nth_error cs i = Some r -> Certificate.id r = cid ->
  nth_error (update_where_id cid f cs) i = Some (f r).
Proof.
  intros H E. unfold update_where_id. rewrite nth_error_map, H. simpl.
  now rewrite E, String.eqb_refl.
Qed.

Lemma nth_update_miss (cid : string) (f : Certificate.row -> Certificate.row)
    (cs : list Certificate.row) (i : nat) (r : Certificate.row) :
  nth_error cs i = Some r -> Certificate.id r <> cid ->
  nth_error (update_where_id cid f cs) i = Some r.
Proof.
  intros H E. unfold update_where_id. rewrite nth_error_map, H. simpl.
  apply String.eqb_neq in E. now rewrite E.
Qed.

Lemma object_cons_other (objects : list (string * text)) (name other : string)
    (content : text) :
  name <> other ->
  object ((other, content) :: objects) name = object objects name.
Proof.
  intros H. unfold object. simpl.
  assert (E : String.eqb other name = false)
    by (apply String.eqb_neq; congruence).
  now rewrite E.
Qed.

Lemma object_cons_same (objects : list (string * text)) (name : string)
    (content : text) :
  object ((name, content) :: objects) name = Some content.
Proof. unfold object. simpl. now rewrite String.eqb_refl. Qed.

Lemma NoDup_map_eq {A B : Type} (f : A -> B) (l : list A) (x y : A) :
  NoDup (map f l) -> In x l -> In y l -> f x = f y -> x = y.
Proof.
  induction l as [|a l IH]; simpl; [tauto|].
  intros Hnd Hx Hy E. inversion Hnd as [|? ? Ha Hnd']; subst.
  destruct Hx as [->|Hx], Hy as [->|Hy]; auto.
  - elim Ha. rewrite E. now apply in_map.
  - elim Ha. rewrite <- E. now apply in_map.
Qed.

Section Facts.

Variable beyond : text -> text -> text -> completion text.
Variable env : Env.

Local Abbreviation generate := (Handler.generate beyond env).
Local Abbreviation attempt := (Handler.attempt beyond env).
Local Abbreviation for_of := (Handler.for_of beyond env).
Local Abbreviation succeeds := (Handler.succeeds beyond env).
Local Abbreviation rendering := (Handler.rendering beyond).
Local Abbreviation url c := (getPublicUrl env (certificateFileName c)).

(** The [try] of one certificate, step by step. *)
Lemma generate_cases (tpl : option CertificateTemplate.row)
    (c : Certificate.row) (w : World) :
  generate tpl c w =
  match rendering tpl c with
  | Throw m => (w, Throw m)
  | Normal html =>
      match object (bucket w) (certificateFileName c) with
      | Some _ => (w, Throw (exists_error env))
      | None =>
          match upload_error env (certificateFileName c) with
          | Some m => (w, Throw m)
          | None =>
              let w1 :=
                set_bucket ((certificateFileName c, blob html) :: bucket w) w
              in
              match generated_update_error env (Certificate.id c) with
              | Some m => (w1, Throw m)
              | None =>
                  (set_certificates
                     (update_where_id (Certificate.id c)
                        (Certificate.generated (url c)) (certificates w)) w1,
                   Normal tt)
              end
          end
      end
  end.
Proof.
  unfold Handler.generate, bind, lift, upload, update_generated.
  destruct (rendering tpl c) as [html|m]; [|reflexivity].
  destruct (object (bucket w) (certificateFileName c)); [reflexivity|].
  destruct (upload_error env (certificateFileName c)); [reflexivity|].
  cbn. destruct (generated_update_error env (Certificate.id c)); reflexivity.
Qed.

(** The [try] and its [catch]. *)
Lemma attempt_cases (tpl : option CertificateTemplate.row)
    (c : Certificate.row) (acc : list string) (w : World) :
  attempt tpl c acc w =
  match generate tpl c w with
  | (w1, Normal _) => (w1, Normal (acc ++ [Certificate.id c])%list)
  | (w1, Throw m) =>
      (match failed_update_error env (Certificate.id c) with
       | Some _ => w1
       | None =>
           set_certificates
             (update_where_id (Certificate.id c) (Certificate.failed m)
                (certificates w1)) w1
       end, Normal acc)
  end.
Proof.
  unfold Handler.attempt, try_catch, bind, ret, update_failed.
  destruct (generate tpl c w) as [w1 [u|m]]; [reflexivity|].
  destruct (failed_update_error env (Certificate.id c)); reflexivity.
Qed.

(** Whether the [try] runs to its end depends on the world only through the
    object stored under the name of the certificate. *)
Lemma generate_outcome (tpl : option CertificateTemplate.row)
    (c : Certificate.row) (w w1 : World) :
  object (bucket w1) (certificateFileName c)
  = object (bucket w) (certificateFileName c) ->
  snd (generate tpl c w1) = snd (generate tpl c w).
Proof.
  intros E. rewrite !generate_cases, E.
  destruct (rendering tpl c); [|reflexivity].
  destruct (object (bucket w) (certificateFileName c)); [reflexivity|].
  destruct (upload_error env (certificateFileName c)); [reflexivity|].
  cbn. destruct (generated_update_error env (Certificate.id c)); reflexivity.
Qed.

(** What one turn of the loop leaves alone: the other two tables, the
    objects under other names and the rows of other certificates. *)
Lemma attempt_frame (tpl : option CertificateTemplate.row)
    (c : Certificate.row) (acc : list string) (w : World) :
  let w' := fst (attempt tpl c acc w) in
  certificate_templates w' = certificate_templates w
  /\ certificate_batches w' = certificate_batches w
  /\ (forall name, name <> certificateFileName c ->
        object (bucket w') name = object (bucket w) name)
  /\ (forall i r, nth_error (certificates w) i = Some r ->
        Certificate.id r <> Certificate.id c ->
        nth_error (certificates w') i = Some r).
Proof.
  rewrite attempt_cases, generate_cases.
  destruct (rendering tpl c) as [html|m];
    [destruct (object (bucket w) (certificateFileName c));
     [|destruct (upload_error env (certificateFileName c));
       [|cbn; destruct (generated_update_error env (Certificate.id c))]]|];
    destruct (failed_update_error env (Certificate.id c));
    cbn; repeat split; auto; intros;
    try (now apply object_cons_other);
    try (now apply nth_update_miss).
Qed.

(** What one turn of the loop does to the row of its certificate. *)
Lemma attempt_row (tpl : option CertificateTemplate.row)
    (c : Certificate.row) (acc : list string) (w : World)
    (i : nat) (r : Certificate.row) :
  nth_error (certificates w) i = Some r ->
  Certificate.id r = Certificate.id c ->
  nth_error (certificates (fst (attempt tpl c acc w))) i =
  Some match snd (generate tpl c w) with
       | Normal _ => Certificate.generated (url c) r
       | Throw m =>
           match failed_update_error env (Certificate.id c) with
           | None => Certificate.failed m r
           | Some _ => r
           end
       end.
Proof.
  intros Hr E. rewrite attempt_cases, generate_cases.
  destruct (rendering tpl c) as [html|m];
    [destruct (object (bucket w) (certificateFileName c));
     [|destruct (upload_error env (certificateFileName c));
       [|cbn; destruct (generated_update_error env (Certificate.id c))]]|];
    destruct (failed_update_error env (Certificate.id c));
    cbn; auto; now apply nth_update_hit.
Qed.

Lemma attempt_result (tpl : option CertificateTemplate.row)
    (c : Certificate.row) (acc : list string) (w : World) :
  snd (attempt tpl c acc w)
  = Normal (if succeeds tpl w c then (acc ++ [Certificate.id c])%list
            else acc).
Proof.
  rewrite attempt_cases. unfold Handler.succeeds.
  destruct (generate tpl c w) as [w1 [u|m]]; reflexivity.
Qed.

(** A turn that runs to its end leaves the rendering in the bucket. *)
Lemma attempt_object (tpl : option CertificateTemplate.row)
    (c : Certificate.row) (acc : list string) (w : World)
    (html : option text) :
  succeeds tpl w c = true -> rendering tpl c = Normal html ->
  object (bucket (fst (attempt tpl c acc w))) (certificateFileName c)
  = Some (blob html).
Proof.
  unfold Handler.succeeds. rewrite attempt_cases, generate_cases.
  intros Hs Hr. rewrite Hr in *.
  destruct (object (bucket w) (certificateFileName c)); [discriminate|].
  destruct (upload_error env (certificateFileName c)); [discriminate|].
  cbn in *. destruct (generated_update_error env (Certificate.id c));
    [discriminate|].
  cbn. apply object_cons_same.
Qed.

(** The turn of one certificate does not change how the turn of another
    one ends. *)
Lemma generate_after_attempt (tpl : option CertificateTemplate.row)
    (c d : Certificate.row) (acc : list string) (w : World) :
  Certificate.id d <> Certificate.id c ->
  snd (generate tpl d (fst (attempt tpl c acc w))) = snd (generate tpl d w).
Proof.
  intros Hne. apply generate_outcome.
  apply (attempt_frame tpl c acc w).
  intros E. apply Hne. now apply certificateFileName_inj.
Qed.

Lemma for_of_cons (tpl : option CertificateTemplate.row)
    (c : Certificate.row) (L : list Certificate.row) (acc : list string)
    (w : World) :
  for_of tpl (c :: L) acc w
  = for_of tpl L
      (if succeeds tpl w c then (acc ++ [Certificate.id c])%list else acc)
      (fst (attempt tpl c acc w)).
Proof.
  cbn [Handler.for_of]. unfold bind at 1.
  pose proof (attempt_result tpl c acc w) as H.
  destruct (attempt tpl c acc w) as [w1 r]. cbn in H. now rewrite H.
Qed.

(** The loop never throws: the failure of a certificate stays in its turn. *)
Lemma for_of_normal (tpl : option CertificateTemplate.row)
    (L : list Certificate.row) :
  forall acc w, exists processed, snd (for_of tpl L acc w) = Normal processed.
Proof.
  induction L as [|c L IH]; intros acc w.
  - now exists acc.
  - rewrite for_of_cons. apply IH.
Qed.

Lemma for_of_frame (tpl : option CertificateTemplate.row)
    (L : list Certificate.row) :
  forall acc w,
    let w' := fst (for_of tpl L acc w) in
    certificate_templates w' = certificate_templates w
    /\ certificate_batches w' = certificate_batches w
    /\ (forall name, ~ In name (map certificateFileName L) ->
          object (bucket w') name = object (bucket w) name)
    /\ (forall i r, nth_error (certificates w) i = Some r ->
          ~ In (Certificate.id r) (map Certificate.id L) ->
          nth_error (certificates w') i = Some r).
Proof.
  induction L as [|c L IH]; intros acc w.
  - cbn. auto.
  - rewrite for_of_cons. cbn zeta.
    destruct (attempt_frame tpl c acc w) as (Ht & Hb & Ho & Hr).
    match goal with
    | |- context [for_of tpl L ?a ?w1] =>
        destruct (IH a w1) as (Ht' & Hb' & Ho' & Hr')
    end.
    repeat split.
    + congruence.
    + congruence.
    + intros name Hn. cbn [map In] in Hn. rewrite Ho' by tauto. apply Ho.
      intuition congruence.
    + intros i r Hi Hn. cbn [map In] in Hn. apply Hr'; [|tauto].
      apply Hr; intuition congruence.
Qed.

(** The identifiers collected by the loop are those of the certificates
    whose turn runs to its end, in order. *)
Lemma for_of_processed (tpl : option CertificateTemplate.row)
    (L : list Certificate.row) :
  NoDup (map Certificate.id L) ->
  forall acc w,
    snd (for_of tpl L acc w)
    = Normal (acc ++ map Certificate.id (filter (succeeds tpl w) L))%list.
Proof.
  induction L as [|c L IH]; intros Hnd acc w.
  - cbn. now rewrite app_nil_r.
  - inversion Hnd as [|? ? Hc Hnd']; subst.
    rewrite for_of_cons, (IH Hnd').
    assert (E : filter (succeeds tpl (fst (attempt tpl c acc w))) L
                = filter (succeeds tpl w) L).
    { apply filter_ext_in. intros d Hd. unfold Handler.succeeds.
      rewrite generate_after_attempt; [reflexivity|].
      intros E. apply Hc. rewrite <- E. now apply in_map. }
    rewrite E. cbn [filter].
    destruct (succeeds tpl w c); cbn [map]; [|reflexivity].
    now rewrite <- app_assoc.
Qed.

(** The row of an attempted certificate at the end of the loop. *)
Lemma for_of_row (tpl : option CertificateTemplate.row)
    (L : list Certificate.row) :
  NoDup (map Certificate.id L) ->
  forall acc w c i r,
    In c L ->
    nth_error (certificates w) i = Some r ->
    Certificate.id r = Certificate.id c ->
    nth_error (certificates (fst (for_of tpl L acc w))) i =
    Some match snd (generate tpl c w) with
         | Normal _ => Certificate.generated (url c) r
         | Throw m =>
             match failed_update_error env (Certificate.id c) with
             | None => Certificate.failed m r
             | Some _ => r
             end
         end.
Proof.
  induction L as [|c0 L IH]; intros Hnd acc w c i r Hin Hi E; [easy|].
  inversion Hnd as [|? ? Hc0 Hnd']; subst.
  rewrite for_of_cons. destruct Hin as [->|Hin].
  - apply for_of_frame.
    + now apply attempt_row.
    + assert (Hid : forall x, Certificate.id x = Certificate.id c ->
                ~ In (Certificate.id x) (map Certificate.id L))
        by (intros x ->; exact Hc0).
      destruct (snd (generate tpl c w));
        [|destruct (failed_update_error env (Certificate.id c))];
        now apply Hid.
  - assert (Hne : Certificate.id c <> Certificate.id c0).
    { intros E'. apply Hc0. rewrite <- E'. now apply in_map. }
    rewrite <- (generate_after_attempt tpl c0 c acc w Hne).
    apply IH; auto.
    apply attempt_frame; [exact Hi|congruence].
Qed.

(** The object of a certificate whose turn runs to its end. *)
Lemma for_of_object (tpl : option CertificateTemplate.row)
    (L : list Certificate.row) :
  NoDup (map Certificate.id L) ->
  forall acc w c html,
    In c L -> succeeds tpl w c = true -> rendering tpl c = Normal html ->
    object (bucket (fst (for_of tpl L acc w))) (certificateFileName c)
    = Some (blob html).
Proof.
  induction L as [|c0 L IH]; intros Hnd acc w c html Hin Hs Hr; [easy|].
  inversion Hnd as [|? ? Hc0 Hnd']; subst.
  rewrite for_of_cons. destruct Hin as [->|Hin].
  - destruct (for_of_frame tpl L
                (if succeeds tpl w c
                 then (acc ++ [Certificate.id c])%list else acc)
                (fst (attempt tpl c acc w))) as (_ & _ & Ho & _).
    rewrite Ho; [now apply attempt_object|].
    intros Hn. apply in_map_iff in Hn as (d & Ed & Hd).
    apply Hc0. rewrite <- (certificateFileName_inj _ _ Ed).
    now apply in_map.
  - assert (Hne : Certificate.id c <> Certificate.id c0).
    { intros E'. apply Hc0. rewrite <- E'. now apply in_map. }
    apply IH; auto. unfold Handler.succeeds in *.
    now rewrite generate_after_attempt.
Qed.

Local Abbreviation run := (Handler.run beyond env).
Local Abbreviation pending batchId w :=
  (filter (is_pending batchId) (certificates w)).

Lemma select_batch_world (batchId : string) (w : World) :
  fst (select_batch env batchId w) = w.
Proof.
  unfold select_batch. destruct (batch_select_error env); [reflexivity|].
  destruct (filter _ (certificate_batches w)) as [|b [|b' l]]; reflexivity.
Qed.

(** The handler, call by call. *)
Lemma run_cases (batchId : string) (w : World) :
  run batchId w =
  match snd (select_batch env batchId w) with
  | Throw m => (w, Normal (Failure m))
  | Normal bt =>
      match certificates_select_error env with
      | Some m => (w, Normal (Failure m))
      | None =>
          match for_of (snd bt) (pending batchId w) [] w with
          | (w1, Throw m) => (w1, Normal (Failure m))
          | (w1, Normal processed) =>
              match batch_update_error env with
              | Some m => (w1, Normal (Failure m))
              | None =>
                  (set_certificate_batches
                     (map (fun b =>
                             if String.eqb (CertificateBatch.id b) batchId
                             then CertificateBatch.update
                                    (batch_status (List.length processed)
                                       (List.length (pending batchId w)))
                                    (Z.of_nat (List.length processed))
                                    (now env) b
                             else b)
                        (certificate_batches w1)) w1,
                   Normal (Success (List.length processed)
                             (List.length (pending batchId w)) batchId))
              end
          end
      end
  end.
Proof.
  unfold Handler.run, try_catch, bind at 1.
  pose proof (select_batch_world batchId w) as Hw.
  destruct (select_batch env batchId w) as [w0 [bt|m]]; cbn in Hw; subst w0;
    [|reflexivity].
  cbn [snd]. unfold bind at 1, select_pending.
  destruct (certificates_select_error env); [reflexivity|].
  unfold bind at 1.
  destruct (for_of (snd bt) (pending batchId w) [] w) as [w1 [processed|m]];
    [|reflexivity].
  unfold bind, update_batch, ret.
  destruct (batch_update_error env); reflexivity.
Qed.

(** The world the handler leaves differs from the one the loop leaves in
    the table of batches only. *)
Lemma run_world (batchId : string) (w : World) :
  let w' := fst (run batchId w) in
  (w' = w
   \/ exists bt,
        snd (select_batch env batchId w) = Normal bt
        /\ certificates_select_error env = None
        /\ certificates w'
           = certificates (fst (for_of (snd bt) (pending batchId w) [] w))
        /\ bucket w'
           = bucket (fst (for_of (snd bt) (pending batchId w) [] w))).
Proof.
  rewrite run_cases.
  destruct (snd (select_batch env batchId w)) as [bt|m]; [|now left].
  destruct (certificates_select_error env) eqn:Ec; [now left|].
  right. exists bt.
  destruct (for_of (snd bt) (pending batchId w) [] w) as [w1 [processed|m]];
    [destruct (batch_update_error env)|]; cbn; auto.
Qed.

(** With distinct identifiers, a row that the query does not select shares
    its identifier with none that it selects. *)
Lemma not_pending_not_attempted (batchId : string) (w : World) (i : nat)
    (r : Certificate.row) :
  NoDup (map Certificate.id (certificates w)) ->
  nth_error (certificates w) i = Some r ->
  is_pending batchId r = false ->
  ~ In (Certificate.id r) (map Certificate.id (pending batchId w)).
Proof.
  intros Hnd Hi Hp Hin. apply in_map_iff in Hin as (d & Ed & Hd).
  apply filter_In in Hd as [Hd Hpd].
  assert (d = r).
  { apply (NoDup_map_eq Certificate.id (certificates w)); auto.
    now apply nth_error_In in Hi. }
  congruence.
Qed.

Lemma pending_NoDup (batchId : string) (w : World) :
  NoDup (map Certificate.id (certificates w)) ->
  NoDup (map Certificate.id (pending batchId w)).
Proof.
  generalize (certificates w). intros cs. induction cs as [|c cs IH];
    cbn; intros Hnd; [constructor|].
  inversion Hnd as [|? ? Hc Hnd']; subst.
  destruct (is_pending batchId c); [|now apply IH].
  cbn. constructor; [|now apply IH].
  intros Hin. apply Hc. apply in_map_iff in Hin as (d & Ed & Hd).
  apply filter_In in Hd as [Hd _]. rewrite <- Ed. now apply in_map.
Qed.

Lemma fails_with_generate (tpl : option CertificateTemplate.row) (w : World)
    (c : Certificate.row) (m : string) :
  fails_with beyond env tpl w c m <-> snd (generate tpl c w) = Throw m.
Proof.
  unfold fails_with. rewrite generate_cases. unfold upload.
  destruct (rendering tpl c) as [html|m0].
  - destruct (object (bucket w) (certificateFileName c));
      [|destruct (upload_error env (certificateFileName c));
        [|cbn; destruct (generated_update_error env (Certificate.id c))]];
      cbn; split.
    all: try (intros [H|(h & Hh & [H|[H1 H2]])]; congruence).
    all: intros H; right; exists html; split; [reflexivity|];
      first [left; congruence | right; split; congruence].
  - cbn. split; [|intros [= ->]; now left].
    intros [H|(h & H & _)]; congruence.
Qed.

Section Run.

Variables (batchId : string) (w : World)
  (bt : CertificateBatch.row * option CertificateTemplate.row).
Hypothesis Hbatch : snd (select_batch env batchId w) = Normal bt.
Hypothesis Hselect : certificates_select_error env = None.

Lemma run_certificates :
  certificates (fst (run batchId w))
  = certificates (fst (for_of (snd bt) (pending batchId w) [] w)).
Proof.
  rewrite run_cases, Hbatch, Hselect.
  destruct (for_of (snd bt) (pending batchId w) [] w) as [w1 [processed|m]];
    [destruct (batch_update_error env)|]; reflexivity.
Qed.

Lemma run_bucket :
  bucket (fst (run batchId w))
  = bucket (fst (for_of (snd bt) (pending batchId w) [] w)).
Proof.
  rewrite run_cases, Hbatch, Hselect.
  destruct (for_of (snd bt) (pending batchId w) [] w) as [w1 [processed|m]];
    [destruct (batch_update_error env)|]; reflexivity.
Qed.

Hypothesis Hkey : NoDup (map Certificate.id (certificates w)).

Lemma run_result :
  snd (run batchId w)
  = Normal
      match batch_update_error env with
      | Some m => Failure m
      | None =>
          Success
            (List.length (filter (succeeds (snd bt) w) (pending batchId w)))
            (List.length (pending batchId w)) batchId
      end.
Proof.
  rewrite run_cases, Hbatch, Hselect.
  pose proof (for_of_processed (snd bt) (pending batchId w)
                (pending_NoDup batchId w Hkey) [] w) as Hp.
  destruct (for_of (snd bt) (pending batchId w) [] w) as [w1 r].
  cbn in Hp. subst r. cbn [app]. rewrite length_map.
  destruct (batch_update_error env); reflexivity.
Qed.

Lemma run_batches :
  batch_update_error env = None ->
  certificate_batches (fst (run batchId w))
  = map (fun b =>
           if String.eqb (CertificateBatch.id b) batchId
           then CertificateBatch.update
                  (batch_status
                     (List.length
                        (filter (succeeds (snd bt) w) (pending batchId w)))
                     (List.length (pending batchId w)))
                  (Z.of_nat
                     (List.length
                        (filter (succeeds (snd bt) w) (pending batchId w))))
                  (now env) b
           else b)
      (certificate_batches w).
Proof.
  intros Hu. rewrite run_cases, Hbatch, Hselect.
  pose proof (for_of_processed (snd bt) (pending batchId w)
                (pending_NoDup batchId w Hkey) [] w) as Hp.
  destruct (for_of_frame (snd bt) (pending batchId w) [] w)
    as (_ & Hb & _).
  destruct (for_of (snd bt) (pending batchId w) [] w) as [w1 r].
  cbn in Hp, Hb. subst r. cbn [app]. rewrite length_map, Hu. cbn.
  now rewrite Hb.
Qed.

(** The row of a pending certificate after the run. *)
Lemma run_row (i : nat) (c : Certificate.row) :
  nth_error (certificates w) i = Some c ->
  is_pending batchId c = true ->
  nth_error (certificates (fst (run batchId w))) i =
  Some match snd (generate (snd bt) c w) with
       | Normal _ => Certificate.generated (url c) c
       | Throw m =>
           match failed_update_error env (Certificate.id c) with
           | None => Certificate.failed m c
           | Some _ => c
           end
       end.
Proof.
  intros Hi Hp. rewrite run_certificates.
  apply for_of_row; auto.
  - now apply pending_NoDup.
  - apply filter_In. split; [|exact Hp]. now apply nth_error_In in Hi.
Qed.

End Run.

End Facts.

(* ------------------------------------------------------------------ *)
(** *** Per-record isolation *)

(** C1 as worded fails: when the table of certificates refuses the update to
    [generated] and then the update to [failed] as well, the certificate is
    left [pending] with no message. *)
Lemma failure_isolation_fails : ~ Stated.failure_isolation_as_worded.
Proof.
  intros H.
  destruct (H Render.no_engine Examples.certificates_down "b1" Examples.world
              (Examples.batch, Some Examples.template) 0
              (Examples.certificate "c1" "pending" (Some Examples.ana))
              "connection lost") as (c' & Hc' & Hs & _).
  - repeat constructor; cbn; intuition discriminate.
  - reflexivity.
  - reflexivity.
  - reflexivity.
  - reflexivity.
  - right. eexists. split; [reflexivity|]. right. split; reflexivity.
  - vm_compute in Hc'. injection Hc' as <-. discriminate Hs.
Qed.

(** The two updates of a certificate row, read column by column. *)
Lemma generated_columns (publicUrl : string) (c : Certificate.row) :
  Certificate.status (Certificate.generated publicUrl c) = "generated"
  /\ Certificate.certificate_url (Certificate.generated publicUrl c)
     = Some publicUrl
  /\ Certificate.error_message (Certificate.generated publicUrl c)
     = Certificate.error_message c
  /\ CertificateColumns.other_columns (Certificate.generated publicUrl c)
     = CertificateColumns.other_columns c.
Proof. repeat split. Qed.

Lemma failed_columns (message : string) (c : Certificate.row) :
  Certificate.status (Certificate.failed message c) = "failed"
  /\ Certificate.error_message (Certificate.failed message c) = Some message
  /\ Certificate.certificate_url (Certificate.failed message c)
     = Certificate.certificate_url c
  /\ CertificateColumns.other_columns (Certificate.failed message c)
     = CertificateColumns.other_columns c.
Proof. repeat split. Qed.


Lemma succeeds_rendering
    (beyond : text -> text -> text -> completion text) (env : Env)
    (tpl : option CertificateTemplate.row) (w : World) (c : Certificate.row) :
  succeeds beyond env tpl w c = true ->
  exists html, rendering beyond tpl c = Normal html.
Proof.
  unfold succeeds. rewrite generate_cases.
  destruct (rendering beyond tpl c) as [html|m]; [now exists html|].
  discriminate.
Qed.

Section Rows.

Variable beyond : text -> text -> text -> completion text.
Variable env : Env.
Variables (batchId : string) (w : World)
  (bt : CertificateBatch.row * option CertificateTemplate.row).
Hypothesis Hbatch : snd (select_batch env batchId w) = Normal bt.
Hypothesis Hselect : certificates_select_error env = None.
Hypothesis Hkey : NoDup (map Certificate.id (certificates w)).
Variables (i : nat) (c : Certificate.row).
Hypothesis Hi : nth_error (certificates w) i = Some c.
Hypothesis Hp : is_pending batchId c = true.

Local Abbreviation w' := (fst (run beyond env batchId w)).

(** A pending certificate whose [try] runs to its end: its row. *)
Lemma run_row_generated :
  succeeds beyond env (snd bt) w c = true ->
  exists c',
    nth_error (certificates w') i = Some c'
    /\ Certificate.status c' = "generated"
    /\ Certificate.certificate_url c'
       = Some (getPublicUrl env (certificateFileName c))
    /\ Certificate.error_message c' = Certificate.error_message c
    /\ CertificateColumns.other_columns c'
       = CertificateColumns.other_columns c.
Proof.
  intros Hs. eexists. split.
  - rewrite (run_row beyond env batchId w bt Hbatch Hselect Hkey i c Hi Hp).
    unfold succeeds in Hs.
    destruct (snd (generate beyond env (snd bt) c w));
      [reflexivity|discriminate].
  - apply generated_columns.
Qed.

(** ... and its object. *)
Lemma run_object_published :
  succeeds beyond env (snd bt) w c = true ->
  exists html,
    rendering beyond (snd bt) c = Normal html
    /\ object (bucket w') (certificateFileName c) = Some (blob html).
Proof.
  intros Hs. destruct (succeeds_rendering _ _ _ _ _ Hs) as [html Hr].
  exists html. split; [exact Hr|].
  rewrite (run_bucket beyond env batchId w bt Hbatch Hselect).
  apply for_of_object; auto.
  - now apply pending_NoDup.
  - apply filter_In. split; [|exact Hp]. now apply nth_error_In in Hi.
Qed.

(** A pending certificate whose [try] fails, when the update of the
    [catch] is accepted. *)
Lemma run_row_failed (m : string) :
  fails_with beyond env (snd bt) w c m ->
  failed_update_error env (Certificate.id c) = None ->
  exists c',
    nth_error (certificates w') i = Some c'
    /\ Certificate.status c' = "failed"
    /\ Certificate.error_message c' = Some m
    /\ Certificate.certificate_url c' = Certificate.certificate_url c
    /\ CertificateColumns.other_columns c'
       = CertificateColumns.other_columns c.
Proof.
  intros Hf Hmark. apply fails_with_generate in Hf. eexists. split.
  - rewrite (run_row beyond env batchId w bt Hbatch Hselect Hkey i c Hi Hp).
    now rewrite Hf, Hmark.
  - apply failed_columns.
Qed.

(** ... and when it is refused. *)
Lemma run_row_unmarked (m e : string) :
  fails_with beyond env (snd bt) w c m ->
  failed_update_error env (Certificate.id c) = Some e ->
  nth_error (certificates w') i = Some c.
Proof.
  intros Hf Hmark. apply fails_with_generate in Hf.
  rewrite (run_row beyond env batchId w bt Hbatch Hselect Hkey i c Hi Hp).
  now rewrite Hf, Hmark.
Qed.

End Rows.

(** C1, amended: when rendering, publishing or the status update of a
    pending certificate fails with a message, the [catch] asks the store
    to mark the row and does not look at the answer.  When the store
    accepts, the row ends with status [failed] and that message, every
    other column as it was; when the store refuses, the row is left as it
    was.  In both cases the run goes on and answers as if nothing had
    happened: the answer is the summary (or the error of the closing
    update), never the error of the certificate, and every pending
    certificate whose own turn runs to its end, before or after this one,
    ends with status [generated] and its public URL. *)
Theorem failure_isolation :
  forall beyond env batchId w bt i c m,
    NoDup (map Certificate.id (certificates w)) ->
    snd (select_batch env batchId w) = Normal bt ->
    certificates_select_error env = None ->
    nth_error (certificates w) i = Some c ->
    is_pending batchId c = true ->
    fails_with beyond env (snd bt) w c m ->
    let w' := fst (run beyond env batchId w) in
    (failed_update_error env (Certificate.id c) = None ->
     exists c',
       nth_error (certificates w') i = Some c'
       /\ Certificate.status c' = "failed"
       /\ Certificate.error_message c' = Some m
       /\ Certificate.certificate_url c' = Certificate.certificate_url c
       /\ CertificateColumns.other_columns c'
          = CertificateColumns.other_columns c)
    /\ (forall e,
          failed_update_error env (Certificate.id c) = Some e ->
          nth_error (certificates w') i = Some c)
    /\ snd (run beyond env batchId w)
       = Normal
           match batch_update_error env with
           | Some e => Failure e
           | None =>
               Success
                 (List.length
                    (filter (succeeds beyond env (snd bt) w)
                       (filter (is_pending batchId) (certificates w))))
                 (List.length (filter (is_pending batchId) (certificates w)))
                 batchId
           end
    /\ (forall j d,
          nth_error (certificates w) j = Some d ->
          is_pending batchId d = true ->
          succeeds beyond env (snd bt) w d = true ->
          exists d',
            nth_error (certificates w') j = Some d'
            /\ Certificate.status d' = "generated"
            /\ Certificate.certificate_url d'
               = Some (getPublicUrl env (certificateFileName d))
            /\ Certificate.error_message d' = Certificate.error_message d
            /\ CertificateColumns.other_columns d'
               = CertificateColumns.other_columns d).
Proof.
  intros beyond env batchId w bt i c m Hkey Hb Hs Hi Hp Hf w'.
  split; [|split; [|split]].
  - intros Hmark.
    now apply (run_row_failed beyond env batchId w bt Hb Hs Hkey i c Hi Hp m).
  - intros e Hmark.
    now apply
      (run_row_unmarked beyond env batchId w bt Hb Hs Hkey i c Hi Hp m e).
  - now apply run_result.
  - intros j d Hj Hpd Hd.
    now apply (run_row_generated beyond env batchId w bt Hb Hs Hkey j d).
Qed.

Lemma failure_isolation_witness :
  exists c',
    nth_error
      (certificates
         (fst (run Render.no_engine Examples.second_upload_refused "b1"
                 Examples.world))) 1
    = Some c'
    /\ Certificate.status c' = "failed"
    /\ Certificate.error_message c' = Some "quota exceeded"
    /\ Certificate.certificate_url c' = None
    /\ CertificateColumns.other_columns c'
       = CertificateColumns.other_columns
           (Examples.certificate "c2" "pending"
              (Some [(str "name", VStr (str "Bo"))])).
Proof.
  apply (failure_isolation Render.no_engine Examples.second_upload_refused
           "b1" Examples.world (Examples.batch, Some Examples.template) 1
           (Examples.certificate "c2" "pending"
              (Some [(str "name", VStr (str "Bo"))]))
           "quota exceeded").
  - repeat constructor; cbn; intuition discriminate.
  - reflexivity.
  - reflexivity.
  - reflexivity.
  - reflexivity.
  - right. eexists. split; [reflexivity|]. left. reflexivity.
  - reflexivity.
Defined.

(* ------------------------------------------------------------------ *)
(** *** Closing update of the batch *)

Lemma batch_status_completed (S N : nat) :
  batch_status S N = "completed" <-> S = N.
Proof.
  unfold batch_status. destruct (Nat.eqb_spec S N); split; auto;
    discriminate || contradiction.
Qed.

Lemma batch_status_partial (S N : nat) :
  S <> N -> batch_status S N = "partial".
Proof.
  unfold batch_status. destruct (Nat.eqb_spec S N); auto; contradiction.
Qed.

(** C2 as worded fails: a run that finds no pending certificate writes
    [completed] with a count of 0. *)
Lemma finalization_rule_fails : ~ Stated.finalization_rule_as_worded.
Proof.
  intros H.
  destruct (H Render.no_engine Examples.calm "b1" Examples.settled 0 0
              (CertificateBatch.update "completed" 0
                 (now Examples.calm) Examples.batch))
    as [[Hc _] _].
  - reflexivity.
  - left. reflexivity.
  - reflexivity.
  - destruct (Hc eq_refl) as [_ Hlt]. lia.
Qed.

(** C2, amended: a run that attempts N pending certificates of which S run
    to their end, and whose closing update is accepted, answers with S and N
    and writes on the batch the status [completed] exactly when S = N (so
    also when N = 0) and [partial] otherwise, with [generated_certificates]
    set to S, the count of this run. *)
Theorem finalization_rule :
  forall beyond env batchId w bt,
    NoDup (map Certificate.id (certificates w)) ->
    snd (select_batch env batchId w) = Normal bt ->
    certificates_select_error env = None ->
    batch_update_error env = None ->
    let attempted := filter (is_pending batchId) (certificates w) in
    let N := List.length attempted in
    let S := List.length (filter (succeeds beyond env (snd bt) w) attempted) in
    snd (run beyond env batchId w) = Normal (Success S N batchId)
    /\ (S <= N)%nat
    /\ (forall i b,
          nth_error (certificate_batches w) i = Some b ->
          CertificateBatch.id b = batchId ->
          exists b',
            nth_error (certificate_batches (fst (run beyond env batchId w))) i
            = Some b'
            /\ b' = CertificateBatch.update (batch_status S N) (Z.of_nat S)
                      (now env) b
            /\ (CertificateBatch.status b' = "completed" <-> S = N)
            /\ (S <> N -> CertificateBatch.status b' = "partial")
            /\ CertificateBatch.generated_certificates b' = Z.of_nat S).
Proof.
  intros beyond env batchId w bt Hkey Hb Hs Hu attempted N S.
  repeat split.
  - rewrite (run_result beyond env batchId w bt Hb Hs Hkey). now rewrite Hu.
  - apply filter_length_le.
  - intros i b Hi Hid. eexists. split; [|split; [reflexivity|]].
    + rewrite (run_batches beyond env batchId w bt Hb Hs Hkey Hu).
      rewrite nth_error_map, Hi. cbn.
      apply String.eqb_eq in Hid. now rewrite Hid.
    + cbn. split; [apply batch_status_completed|].
      split; [apply batch_status_partial|reflexivity].
Qed.

Lemma finalization_rule_witness :
  snd (run Render.no_engine Examples.second_upload_refused "b1" Examples.world)
  = Normal (Success 2 3 "b1").
Proof.
  apply (finalization_rule Render.no_engine Examples.second_upload_refused
           "b1" Examples.world (Examples.batch, Some Examples.template)).
  - repeat constructor; cbn; intuition discriminate.
  - reflexivity.
  - reflexivity.
  - reflexivity.
Defined.

(* ------------------------------------------------------------------ *)
(** *** Selection of the pending certificates *)




(* ------------------------------------------------------------------ *)
(** *** Fatal errors and the answer of the run *)

(** C8: when the query of the batch (with its template) or the query of the
    certificates fails, the run answers with that error and the world is as
    it was; when the closing update fails, the run answers with that error
    and the world is the one the loop left, rows and objects included;
    otherwise the run answers with the number of certificates whose turn
    ran to its end, the number attempted and the batch identifier. *)
Theorem fatal_errors_and_result :
  forall beyond env batchId w,
    NoDup (map Certificate.id (certificates w)) ->
    (forall m,
       snd (select_batch env batchId w) = Throw m ->
       run beyond env batchId w = (w, Normal (Failure m)))
    /\ (forall bt m,
          snd (select_batch env batchId w) = Normal bt ->
          certificates_select_error env = Some m ->
          run beyond env batchId w = (w, Normal (Failure m)))
    /\ (forall bt,
          snd (select_batch env batchId w) = Normal bt ->
          certificates_select_error env = None ->
          let attempted := filter (is_pending batchId) (certificates w) in
          (forall m,
             batch_update_error env = Some m ->
             run beyond env batchId w
             = (fst (for_of beyond env (snd bt) attempted [] w),
                Normal (Failure m)))
          /\ (batch_update_error env = None ->
              snd (run beyond env batchId w)
              = Normal
                  (Success
                     (List.length
                        (filter (succeeds beyond env (snd bt) w) attempted))
                     (List.length attempted) batchId))).
Proof.
  intros beyond env batchId w Hkey. split; [|split].
  - intros m Hm. now rewrite run_cases, Hm.
  - intros bt m Hb Hs. now rewrite run_cases, Hb, Hs.
  - intros bt Hb Hs attempted. split.
    + intros m Hu. rewrite run_cases, Hb, Hs, Hu.
      pose proof (for_of_normal beyond env (snd bt) attempted [] w)
        as [processed Hp].
      fold attempted.
      destruct (for_of beyond env (snd bt) attempted [] w) as [w1 r].
      cbn in Hp. now subst r.
    + intros Hu. rewrite (run_result beyond env batchId w bt Hb Hs Hkey).
      now rewrite Hu.
Qed.

Lemma fatal_errors_and_result_witness :
  run Render.no_engine Examples.batches_down "b1" Examples.world
  = (fst (for_of Render.no_engine Examples.batches_down
            (Some Examples.template)
            (filter (is_pending "b1") (certificates Examples.world)) []
            Examples.world),
     Normal (Failure "connection lost")).
Proof.
  apply (fatal_errors_and_result Render.no_engine Examples.batches_down "b1"
           Examples.world)
    with (bt := (Examples.batch, Some Examples.template)).
  - repeat constructor; cbn; intuition discriminate.
  - reflexivity.
  - reflexivity.
  - reflexivity.
Defined.

(* ------------------------------------------------------------------ *)
(** *** Frame of the closing update *)

Lemma other_columns_update (status : string) (generated : Z) (now : string)
    (b : CertificateBatch.row) :
  CertificateBatch.other_columns
    (CertificateBatch.update status generated now b)
  = CertificateBatch.other_columns b.
Proof. reflexivity. Qed.

(** C9: whatever happens to the certificates, a run leaves every column of
    every batch other than [status], [generated_certificates] and
    [updated_at] as it was, and does not touch the templates. *)
Theorem finalization_frame :
  forall beyond env batchId w,
    map CertificateBatch.other_columns
      (certificate_batches (fst (run beyond env batchId w)))
    = map CertificateBatch.other_columns (certificate_batches w)
    /\ certificate_templates (fst (run beyond env batchId w))
       = certificate_templates w.
Proof.
  intros beyond env batchId w. rewrite run_cases.
  destruct (snd (select_batch env batchId w)) as [bt|m]; [|now split].
  destruct (certificates_select_error env); [now split|].
  destruct (for_of_frame beyond env (snd bt)
              (filter (is_pending batchId) (certificates w)) [] w)
    as (Ht & Hb & _).
  destruct (for_of beyond env (snd bt) _ [] w) as [w1 [processed|m]];
    cbn in Ht, Hb.
  - destruct (batch_update_error env); cbn; rewrite ?Hb, ?Ht; [now split|].
    split; [|reflexivity]. rewrite map_map. apply map_ext. intros b.
    destruct (String.eqb (CertificateBatch.id b) batchId); reflexivity.
  - cbn. now rewrite Hb, Ht.
Qed.

(* ------------------------------------------------------------------ *)
(** *** Certificates without data *)

(** C10: for a pending certificate whose [certificate_data] is null, under a
    template that has a content, rendering substitutes nothing; when the
    name of the certificate is free in the bucket and the services accept
    its upload and its update, the object published under its name is the
    template content as it is, and the row ends with status [generated]
    and, as [certificate_url], the public URL of that object, its other
    columns as they were. *)
Theorem null_data_published_verbatim :
  forall beyond env batchId w b t T i c,
    NoDup (map Certificate.id (certificates w)) ->
    snd (select_batch env batchId w) = Normal (b, Some t) ->
    CertificateTemplate.template_content t = Some T ->
    certificates_select_error env = None ->
    nth_error (certificates w) i = Some c ->
    is_pending batchId c = true ->
    Certificate.certificate_data c = None ->
    object (bucket w) (certificateFileName c) = None ->
    upload_error env (certificateFileName c) = None ->
    generated_update_error env (Certificate.id c) = None ->
    let w' := fst (run beyond env batchId w) in
    rendering beyond (Some t) c = Normal (Some T)
    /\ object (bucket w') (certificateFileName c) = Some T
    /\ exists c',
         nth_error (certificates w') i = Some c'
         /\ Certificate.status c' = "generated"
         /\ Certificate.certificate_url c'
            = Some (getPublicUrl env (certificateFileName c))
         /\ Certificate.error_message c' = Certificate.error_message c
         /\ CertificateColumns.other_columns c'
            = CertificateColumns.other_columns c.
Proof.
  intros beyond env batchId w b t T i c Hkey Hb HT Hs Hi Hp Hd Hfree Hup Hgen
    w'.
  assert (Hr : rendering beyond (Some t) c = Normal (Some T)).
  { unfold rendering, Render.htmlContent. now rewrite Hd, HT. }
  assert (Hg : succeeds beyond env (Some t) w c = true).
  { unfold succeeds. rewrite generate_cases, Hr, Hfree, Hup. cbn.
    now rewrite Hgen. }
  split; [exact Hr|]. split.
  - destruct (run_object_published beyond env batchId w _ Hb Hs Hkey i c
                Hi Hp Hg) as (html & Hh & Ho).
    cbn [snd] in Hh. rewrite Hr in Hh. injection Hh as <-. exact Ho.
  - exact (run_row_generated beyond env batchId w _ Hb Hs Hkey i c Hi Hp Hg).
Qed.

Lemma null_data_published_verbatim_witness :
  rendering Render.no_engine (Some Examples.template)
    (Examples.certificate "c3" "pending" None)
  = Normal (Some (str "Hello {{name}}, you scored {{score}}"))
  /\ object
       (bucket (fst (run Render.no_engine Examples.calm "b1" Examples.world)))
       "certificate_c3.html"
     = Some (str "Hello {{name}}, you scored {{score}}")
  /\ exists c',
       nth_error
         (certificates
            (fst (run Render.no_engine Examples.calm "b1" Examples.world))) 2
       = Some c'
       /\ Certificate.status c' = "generated"
       /\ Certificate.certificate_url c'
          = Some "https://project.example/certificates/certificate_c3.html"
       /\ Certificate.error_message c' = None
       /\ CertificateColumns.other_columns c'
          = CertificateColumns.other_columns
              (Examples.certificate "c3" "pending" None).
Proof.
  apply (null_data_published_verbatim Render.no_engine Examples.calm "b1"
           Examples.world Examples.batch Examples.template
           (str "Hello {{name}}, you scored {{score}}") 2
           (Examples.certificate "c3" "pending" None)).
  - repeat constructor; cbn; intuition discriminate.
  - reflexivity.
  - reflexivity.
  - reflexivity.
  - reflexivity.
  - reflexivity.
  - reflexivity.
  - reflexivity.
  - reflexivity.
  - reflexivity.
Defined.

(* ------------------------------------------------------------------ *)
(** *** The scenario of three records *)

(** The publish call of the second record fails: the first and the third
    end [generated] with their URL, the second [failed] with the message,
    the batch [partial] with a count of 2; the certificate generated
    earlier is as it was. *)
Example scenario_three_records :
  let w' :=
    fst (run Render.no_engine Examples.second_upload_refused "b1"
           Examples.world) in
  map (fun c => (Certificate.id c, Certificate.status c,
                 Certificate.certificate_url c, Certificate.error_message c))
    (certificates w')
  = [("c1", "generated",
      Some "https://project.example/certificates/certificate_c1.html", None);
     ("c2", "failed", None, Some "quota exceeded");
     ("c3", "generated",
      Some "https://project.example/certificates/certificate_c3.html", None);
     ("c0", "generated", None, None)]
  /\ map (fun b => (CertificateBatch.status b,
                    CertificateBatch.generated_certificates b))
       (certificate_batches w')
     = [("partial", 2%Z)]
  /\ object (bucket w') "certificate_c1.html"
     = Some (str "Hello Ana, you scored 95").
Proof. repeat split; reflexivity. Qed.

End HandlerFacts.

(* ------------------------------------------------------------------ *)
(** ** Further facts about the handler *)

Module HandlerMore.
Import Js Db Handler HandlerFacts.
Open Scope string_scope.

(** *** The bucket *)

Lemma attempt_keeps_objects
    (beyond : text -> text -> text -> completion text) (env : Env)
    (tpl : option CertificateTemplate.row) (c : Certificate.row)
    (acc : list string) (w : World) (name : string) (content : text) :
  object (bucket w) name = Some content ->
  object (bucket (fst (attempt beyond env tpl c acc w))) name = Some content.
Proof.
  intros H. rewrite attempt_cases, generate_cases.
  destruct (rendering beyond tpl c) as [html|m];
    [destruct (object (bucket w) (certificateFileName c)) eqn:Eo;
     [|destruct (upload_error env (certificateFileName c));
       [|cbv zeta; destruct (generated_update_error env (Certificate.id c))]]|];
    destruct (failed_update_error env (Certificate.id c));
    cbn [fst bucket set_bucket set_certificates]; auto;
    (rewrite object_cons_other; [exact H|congruence]).
Qed.

Lemma for_of_keeps_objects
    (beyond : text -> text -> text -> completion text) (env : Env)
    (tpl : option CertificateTemplate.row) (L : list Certificate.row)
    (name : string) (content : text) :
  forall acc w,
    object (bucket w) name = Some content ->
    object (bucket (fst (for_of beyond env tpl L acc w))) name = Some content.
Proof.
  induction L as [|c L IH]; intros acc w H; [exact H|].
  rewrite for_of_cons. apply IH. now apply attempt_keeps_objects.
Qed.

Lemma run_keeps_objects
    (beyond : text -> text -> text -> completion text) (env : Env)
    (batchId : string) (w : World) (name : string) (content : text) :
  object (bucket w) name = Some content ->
  object (bucket (fst (run beyond env batchId w))) name = Some content.
Proof.
  intros H.
  destruct (run_world beyond env batchId w) as [E|(bt & _ & _ & _ & E)].
  - now rewrite E.
  - rewrite E. now apply for_of_keeps_objects.
Qed.

(** X1: the upload is made without [upsert], so a run never replaces or
    removes an object that is already in the bucket. *)
Theorem existing_objects_kept :
  forall beyond env batchId w name content,
    object (bucket w) name = Some content ->
    object (bucket (fst (run beyond env batchId w))) name = Some content.
Proof. intros. now apply run_keeps_objects. Qed.

Lemma existing_objects_kept_witness :
  object
    (bucket
       (fst (run Render.no_engine Examples.calm "b1"
               MoreExamples.republished)))
    "certificate_c1.html"
  = Some (str "old").
Proof.
  apply (existing_objects_kept Render.no_engine Examples.calm "b1").
  reflexivity.
Defined.

(** *** Rows of the certificates *)

Lemma update_where_id_columns (cid : string)
    (f : Certificate.row -> Certificate.row) (cs : list Certificate.row) :
  (forall r, CertificateColumns.other_columns (f r)
             = CertificateColumns.other_columns r) ->
  map CertificateColumns.other_columns (update_where_id cid f cs)
  = map CertificateColumns.other_columns cs.
Proof.
  intros Hf. unfold update_where_id. rewrite map_map. apply map_ext.
  intros r. destruct (String.eqb (Certificate.id r) cid); auto.
Qed.

Lemma attempt_columns
    (beyond : text -> text -> text -> completion text) (env : Env)
    (tpl : option CertificateTemplate.row) (c : Certificate.row)
    (acc : list string) (w : World) :
  map CertificateColumns.other_columns
    (certificates (fst (attempt beyond env tpl c acc w)))
  = map CertificateColumns.other_columns (certificates w).
Proof.
  rewrite attempt_cases, generate_cases.
  destruct (rendering beyond tpl c) as [html|m];
    [destruct (object (bucket w) (certificateFileName c));
     [|destruct (upload_error env (certificateFileName c));
       [|cbv zeta; destruct (generated_update_error env (Certificate.id c))]]|];
    destruct (failed_update_error env (Certificate.id c));
    cbn [fst certificates set_bucket set_certificates]; auto;
    now apply update_where_id_columns.
Qed.

Lemma for_of_columns
    (beyond : text -> text -> text -> completion text) (env : Env)
    (tpl : option CertificateTemplate.row) (L : list Certificate.row) :
  forall acc w,
    map CertificateColumns.other_columns
      (certificates (fst (for_of beyond env tpl L acc w)))
    = map CertificateColumns.other_columns (certificates w).
Proof.
  induction L as [|c L IH]; intros acc w; [reflexivity|].
  rewrite for_of_cons, IH. apply attempt_columns.
Qed.

Lemma run_columns
    (beyond : text -> text -> text -> completion text) (env : Env)
    (batchId : string) (w : World) :
  map CertificateColumns.other_columns
    (certificates (fst (run beyond env batchId w)))
  = map CertificateColumns.other_columns (certificates w).
Proof.
  destruct (run_world beyond env batchId w) as [E|(bt & _ & _ & E & _)].
  - now rewrite E.
  - rewrite E. apply for_of_columns.
Qed.

(** X2: a run inserts no certificate row and deletes none, and on the rows
    it writes nothing but [status], [certificate_url] and [error_message]:
    the other columns of every row are as they were, in the same order. *)
Theorem certificate_columns_kept :
  forall beyond env batchId w,
    map CertificateColumns.other_columns
      (certificates (fst (run beyond env batchId w)))
    = map CertificateColumns.other_columns (certificates w).
Proof. intros. apply run_columns. Qed.


(** The object of a certificate whose upload goes through, whatever becomes
    of the update that follows. *)
Lemma attempt_object_uploaded
    (beyond : text -> text -> text -> completion text) (env : Env)
    (tpl : option CertificateTemplate.row) (c : Certificate.row)
    (acc : list string) (w : World) (html : option text) :
  rendering beyond tpl c = Normal html ->
  object (bucket w) (certificateFileName c) = None ->
  upload_error env (certificateFileName c) = None ->
  object (bucket (fst (attempt beyond env tpl c acc w)))
    (certificateFileName c)
  = Some (blob html).
Proof.
  intros Hr Ho Hu. rewrite attempt_cases, generate_cases, Hr, Ho, Hu.
  cbv zeta. destruct (generated_update_error env (Certificate.id c));
    [destruct (failed_update_error env (Certificate.id c))|];
    cbn [fst bucket set_bucket set_certificates]; apply object_cons_same.
Qed.

Lemma for_of_object_uploaded
    (beyond : text -> text -> text -> completion text) (env : Env)
    (tpl : option CertificateTemplate.row) (L : list Certificate.row) :
  NoDup (map Certificate.id L) ->
  forall acc w c html,
    In c L ->
    rendering beyond tpl c = Normal html ->
    object (bucket w) (certificateFileName c) = None ->
    upload_error env (certificateFileName c) = None ->
    object (bucket (fst (for_of beyond env tpl L acc w)))
      (certificateFileName c)
    = Some (blob html).
Proof.
  induction L as [|c0 L IH]; intros Hnd acc w c html Hin Hr Ho Hu; [easy|].
  inversion Hnd as [|? ? Hc0 Hnd']; subst.
  rewrite for_of_cons. destruct Hin as [->|Hin].
  - apply for_of_keeps_objects. now apply attempt_object_uploaded.
  - apply IH; auto.
    destruct (attempt_frame beyond env tpl c0 acc w) as (_ & _ & Hf & _).
    rewrite Hf; [exact Ho|].
    intros E. apply Hc0. rewrite <- (certificateFileName_inj _ _ E).
    now apply in_map.
Qed.

(** The [try] of a certificate whose rendering is uploaded and whose update
    to [generated] is refused fails with the message of that update. *)
Lemma refused_update_fails
    (beyond : text -> text -> text -> completion text) (env : Env)
    (tpl : option CertificateTemplate.row) (w : World) (c : Certificate.row)
    (html : option text) (m : string) :
  rendering beyond tpl c = Normal html ->
  object (bucket w) (certificateFileName c) = None ->
  upload_error env (certificateFileName c) = None ->
  generated_update_error env (Certificate.id c) = Some m ->
  fails_with beyond env tpl w c m.
Proof.
  intros Hr Ho Hu Hg. apply fails_with_generate.
  rewrite generate_cases, Hr, Ho, Hu. cbv zeta. now rewrite Hg.
Qed.

(** X3: the upload is not undone.  When the rendering of a pending
    certificate is uploaded and the update to [generated] is then refused,
    the object stays in the bucket, while the row ends with status
    [failed], the message of the refused update and the URL it had before
    (or, when the store refuses that update too, as it was). *)
Theorem upload_outlives_refused_update :
  forall beyond env batchId w bt i c html m,
    NoDup (map Certificate.id (certificates w)) ->
    snd (select_batch env batchId w) = Normal bt ->
    certificates_select_error env = None ->
    nth_error (certificates w) i = Some c ->
    is_pending batchId c = true ->
    rendering beyond (snd bt) c = Normal html ->
    object (bucket w) (certificateFileName c) = None ->
    upload_error env (certificateFileName c) = None ->
    generated_update_error env (Certificate.id c) = Some m ->
    let w' := fst (run beyond env batchId w) in
    object (bucket w') (certificateFileName c) = Some (blob html)
    /\ (failed_update_error env (Certificate.id c) = None ->
        exists c',
          nth_error (certificates w') i = Some c'
          /\ Certificate.status c' = "failed"
          /\ Certificate.error_message c' = Some m
          /\ Certificate.certificate_url c' = Certificate.certificate_url c
          /\ CertificateColumns.other_columns c'
             = CertificateColumns.other_columns c)
    /\ (forall e,
          failed_update_error env (Certificate.id c) = Some e ->
          nth_error (certificates w') i = Some c).
Proof.
  intros beyond env batchId w bt i c html m Hkey Hb Hs Hi Hp Hr Ho Hu Hg w'.
  assert (Hin : In c (filter (is_pending batchId) (certificates w))).
  { apply filter_In. split; [|exact Hp]. now apply nth_error_In in Hi. }
  pose proof (refused_update_fails beyond env (snd bt) w c html m Hr Ho Hu Hg)
    as Hfails.
  split; [|split].
  - unfold w'. rewrite (run_bucket beyond env batchId w bt Hb Hs).
    apply for_of_object_uploaded; auto. now apply pending_NoDup.
  - intros Hf.
    now apply (run_row_failed beyond env batchId w bt Hb Hs Hkey i c Hi Hp m).
  - intros e Hf.
    now apply
      (run_row_unmarked beyond env batchId w bt Hb Hs Hkey i c Hi Hp m e).
Qed.

Lemma upload_outlives_refused_update_witness :
  object
    (bucket
       (fst (run Render.no_engine MoreExamples.rows_read_only "b1"
               Examples.world)))
    "certificate_c1.html"
  = Some (str "Hello Ana, you scored 95")
  /\ (failed_update_error MoreExamples.rows_read_only "c1" = None ->
      exists c',
        nth_error
          (certificates
             (fst (run Render.no_engine MoreExamples.rows_read_only "b1"
                     Examples.world))) 0
        = Some c'
        /\ Certificate.status c' = "failed"
        /\ Certificate.error_message c' = Some "read-only transaction"
        /\ Certificate.certificate_url c' = None
        /\ CertificateColumns.other_columns c'
           = CertificateColumns.other_columns
               (Examples.certificate "c1" "pending" (Some Examples.ana)))
  /\ (forall e,
        failed_update_error MoreExamples.rows_read_only "c1" = Some e ->
        nth_error
          (certificates
             (fst (run Render.no_engine MoreExamples.rows_read_only "b1"
                     Examples.world))) 0
        = Some (Examples.certificate "c1" "pending" (Some Examples.ana))).
Proof.
  apply (upload_outlives_refused_update Render.no_engine
           MoreExamples.rows_read_only "b1" Examples.world
           (Examples.batch, Some Examples.template) 0
           (Examples.certificate "c1" "pending" (Some Examples.ana))
           (Some (str "Hello Ana, you scored 95")) "read-only transaction").
  - repeat constructor; cbn; intuition discriminate.
  - reflexivity.
  - reflexivity.
  - reflexivity.
  - reflexivity.
  - reflexivity.
  - reflexivity.
  - reflexivity.
  - reflexivity.
Defined.



(** *** Templates without a content *)

(** No object is stored for a certificate whose rendering throws. *)
Lemma for_of_object_untouched
    (beyond : text -> text -> text -> completion text) (env : Env)
    (tpl : option CertificateTemplate.row) (L : list Certificate.row)
    (name : string) :
  (forall d, In d L -> certificateFileName d = name ->
             exists m, rendering beyond tpl d = Throw m) ->
  forall acc w,
    object (bucket (fst (for_of beyond env tpl L acc w))) name
    = object (bucket w) name.
Proof.
  induction L as [|c0 L IH]; intros H acc w; [reflexivity|].
  rewrite for_of_cons, IH by (intros d Hd; apply H; now right).
  destruct (string_dec (certificateFileName c0) name) as [E|E].
  - destruct (H c0 (or_introl eq_refl) E) as [m Hm].
    rewrite attempt_cases, generate_cases, Hm.
    now destruct (failed_update_error env (Certificate.id c0)).
  - destruct (attempt_frame beyond env tpl c0 acc w) as (_ & _ & Hf & _).
    apply Hf. congruence.
Qed.

(** X6: under a template whose [template_content] is null, a pending
    certificate with at least one entry in its data fails on the first call
    of [replace], whatever its keys: nothing is stored under its name and,
    once marked, its row has status [failed] and the message of that
    TypeError. *)
Theorem null_content_with_data_fails :
  forall beyond env batchId w b t i c kv rest,
    NoDup (map Certificate.id (certificates w)) ->
    snd (select_batch env batchId w) = Normal (b, Some t) ->
    CertificateTemplate.template_content t = None ->
    certificates_select_error env = None ->
    nth_error (certificates w) i = Some c ->
    is_pending batchId c = true ->
    Certificate.certificate_data c = Some (kv :: rest) ->
    failed_update_error env (Certificate.id c) = None ->
    let w' := fst (run beyond env batchId w) in
    (exists c',
       nth_error (certificates w') i = Some c'
       /\ Certificate.status c' = "failed"
       /\ Certificate.error_message c'
          = Some "Cannot read properties of null (reading 'replace')"
       /\ Certificate.certificate_url c' = Certificate.certificate_url c
       /\ CertificateColumns.other_columns c'
          = CertificateColumns.other_columns c)
    /\ object (bucket w') (certificateFileName c)
       = object (bucket w) (certificateFileName c).
Proof.
  intros beyond env batchId w b t i c [k v] rest Hkey Hb HT Hs Hi Hp Hd Hf w'.
  assert (Hr : rendering beyond (Some t) c
               = Throw "Cannot read properties of null (reading 'replace')").
  { unfold rendering, Render.htmlContent. now rewrite HT, Hd. }
  split.
  - apply (run_row_failed beyond env batchId w _ Hb Hs Hkey i c Hi Hp);
      [|exact Hf].
    left. exact Hr.
  - unfold w'. rewrite (run_bucket beyond env batchId w _ Hb Hs). cbn [snd].
    apply for_of_object_untouched.
    intros d Hd' E. apply certificateFileName_inj in E.
    apply filter_In in Hd' as [Hd' _]. apply nth_error_In in Hi.
    assert (d = c)
      by now apply (NoDup_map_eq Certificate.id (certificates w)).
    subst d. eexists. exact Hr.
Qed.

Lemma null_content_with_data_fails_witness :
  (exists c',
     nth_error
       (certificates
          (fst (run Render.no_engine Examples.calm "b1" MoreExamples.blank)))
       0
     = Some c'
     /\ Certificate.status c' = "failed"
     /\ Certificate.error_message c'
        = Some "Cannot read properties of null (reading 'replace')"
     /\ Certificate.certificate_url c' = None
     /\ CertificateColumns.other_columns c'
        = CertificateColumns.other_columns
            (Examples.certificate "c1" "pending" (Some Examples.ana)))
  /\ object
       (bucket
          (fst (run Render.no_engine Examples.calm "b1" MoreExamples.blank)))
       "certificate_c1.html"
     = None.
Proof.
  apply (null_content_with_data_fails Render.no_engine Examples.calm "b1"
           MoreExamples.blank Examples.batch MoreExamples.blank_template 0
           (Examples.certificate "c1" "pending" (Some Examples.ana))
           (str "name", VStr (str "Ana")) [(str "score", VNum 95 eq_refl)]).
  - repeat constructor; cbn; intuition discriminate.
  - reflexivity.
  - reflexivity.
  - reflexivity.
  - reflexivity.
  - reflexivity.
  - reflexivity.
  - reflexivity.
Defined.

(** X7: under a template whose [template_content] is null, a pending
    certificate whose data is null or has no entry is published all the
    same: absent failures of the upload and of the update, the object under
    its name holds the four letters [null] and the row ends with status
    [generated] and the public URL of that object. *)
Theorem null_content_without_data_publishes_null :
  forall beyond env batchId w b t i c,
    NoDup (map Certificate.id (certificates w)) ->
    snd (select_batch env batchId w) = Normal (b, Some t) ->
    CertificateTemplate.template_content t = None ->
    certificates_select_error env = None ->
    nth_error (certificates w) i = Some c ->
    is_pending batchId c = true ->
    Certificate.certificate_data c = None
    \/ Certificate.certificate_data c = Some [] ->
    object (bucket w) (certificateFileName c) = None ->
    upload_error env (certificateFileName c) = None ->
    generated_update_error env (Certificate.id c) = None ->
    let w' := fst (run beyond env batchId w) in
    object (bucket w') (certificateFileName c) = Some (str "null")
    /\ exists c',
         nth_error (certificates w') i = Some c'
         /\ Certificate.status c' = "generated"
         /\ Certificate.certificate_url c'
            = Some (getPublicUrl env (certificateFileName c))
         /\ Certificate.error_message c' = Certificate.error_message c
         /\ CertificateColumns.other_columns c'
            = CertificateColumns.other_columns c.
Proof.
  intros beyond env batchId w b t i c Hkey Hb HT Hs Hi Hp Hd Ho Hu Hg w'.
  assert (Hr : rendering beyond (Some t) c = Normal None).
  { unfold rendering, Render.htmlContent. rewrite HT.
    destruct Hd as [-> | ->]; reflexivity. }
  assert (Hok : succeeds beyond env (Some t) w c = true).
  { unfold succeeds. rewrite generate_cases, Hr, Ho, Hu. cbv zeta.
    now rewrite Hg. }
  assert (Hin : In c (filter (is_pending batchId) (certificates w))).
  { apply filter_In. split; [|exact Hp]. now apply nth_error_In in Hi. }
  split.
  - unfold w'. rewrite (run_bucket beyond env batchId w _ Hb Hs).
    change (Some (str "null")) with (Some (blob None)).
    apply for_of_object_uploaded; auto. now apply pending_NoDup.
  - exact (run_row_generated beyond env batchId w _ Hb Hs Hkey i c Hi Hp Hok).
Qed.

Lemma null_content_without_data_publishes_null_witness :
  object
    (bucket (fst (run Render.no_engine Examples.calm "b1" MoreExamples.blank)))
    "certificate_c3.html"
  = Some (str "null")
  /\ exists c',
       nth_error
         (certificates
            (fst (run Render.no_engine Examples.calm "b1"
                    MoreExamples.blank))) 2
       = Some c'
       /\ Certificate.status c' = "generated"
       /\ Certificate.certificate_url c'
          = Some "https://project.example/certificates/certificate_c3.html"
       /\ Certificate.error_message c' = None
       /\ CertificateColumns.other_columns c'
          = CertificateColumns.other_columns
              (Examples.certificate "c3" "pending" None).
Proof.
  apply (null_content_without_data_publishes_null Render.no_engine
           Examples.calm "b1" MoreExamples.blank Examples.batch
           MoreExamples.blank_template 2
           (Examples.certificate "c3" "pending" None)).
  - repeat constructor; cbn; intuition discriminate.
  - reflexivity.
  - reflexivity.
  - reflexivity.
  - reflexivity.
  - reflexivity.
  - left. reflexivity.
  - reflexivity.
  - reflexivity.
  - reflexivity.
Defined.

(** *** A run after a run *)









(** *** What the history page shows of a batch the function wrote *)

(** X9: the status a run writes is [completed] or [partial], never
    [failed] or [processing]; the badge of the history page is therefore
    green when every attempted certificate ran to its end and the default
    grey otherwise, also when every certificate failed. *)
Theorem written_status_badge :
  forall beyond env batchId w bt b',
    NoDup (map Certificate.id (certificates w)) ->
    snd (select_batch env batchId w) = Normal bt ->
    certificates_select_error env = None ->
    batch_update_error env = None ->
    In b' (certificate_batches (fst (run beyond env batchId w))) ->
    CertificateBatch.id b' = batchId ->
    let attempted := filter (is_pending batchId) (certificates w) in
    let N := List.length attempted in
    let S := List.length (filter (succeeds beyond env (snd bt) w) attempted) in
    CertificateBatch.status b'
    = (if Nat.eqb S N then "completed" else "partial")
    /\ History.getStatusColor (CertificateBatch.status b')
       = if Nat.eqb S N
         then "bg-green-100 text-green-800 dark:bg-green-900 dark:text-green-200"
         else "bg-gray-100 text-gray-800 dark:bg-gray-900 dark:text-gray-200".
Proof.
  intros beyond env batchId w bt b' Hkey Hb Hs Hu Hin Hid attempted N S.
  rewrite (run_batches beyond env batchId w bt Hb Hs Hkey Hu) in Hin.
  apply in_map_iff in Hin as (b0 & <- & _).
  destruct (String.eqb (CertificateBatch.id b0) batchId) eqn:E.
  - cbn [CertificateBatch.status CertificateBatch.update].
    unfold batch_status. fold attempted. fold N. fold S.
    destruct (Nat.eqb S N); split; reflexivity.
  - apply String.eqb_neq in E. contradiction.
Qed.

Lemma written_status_badge_witness :
  History.getStatusColor
    (CertificateBatch.status
       (CertificateBatch.update "partial" 0 (now Examples.calm)
          Examples.batch))
  = "bg-gray-100 text-gray-800 dark:bg-gray-900 dark:text-gray-200".
Proof.
  apply (written_status_badge Render.no_engine Examples.certificates_down
           "b1" Examples.world (Examples.batch, Some Examples.template)).
  - repeat constructor; cbn; intuition discriminate.
  - reflexivity.
  - reflexivity.
  - reflexivity.
  - left. reflexivity.
  - reflexivity.
Defined.

(** *** Names of the objects *)

(** X10: two certificates are stored under the same object name exactly
    when they have the same identifier. *)
Theorem object_names_distinct :
  forall c d : Certificate.row,
    certificateFileName c = certificateFileName d
    <-> Certificate.id c = Certificate.id d.
Proof.
  intros c d. split.
  - apply certificateFileName_inj.
  - unfold certificateFileName. now intros ->.
Qed.

(** *** The answer and the table *)

Lemma map_of_rows {A : Type} (g : A -> A) (l l' : list A) :
  List.length l' = List.length l ->
  (forall i r, nth_error l i = Some r -> nth_error l' i = Some (g r)) ->
  l' = map g l.
Proof.
  intros Hlen H. apply nth_error_ext. intros n.
  rewrite nth_error_map. destruct (nth_error l n) as [r|] eqn:E.
  - now apply H.
  - cbn. apply nth_error_None. apply nth_error_None in E. lia.
Qed.

Lemma combine_map_self {A : Type} (g : A -> A) (l : list A) :
  combine l (map g l) = map (fun r => (r, g r)) l.
Proof. induction l as [|x l IH]; cbn; [reflexivity|now rewrite IH]. Qed.

Lemma filter_map_length {A B : Type} (P : B -> bool) (h : A -> B)
    (l : list A) :
  List.length (filter P (map h l))
  = List.length (filter (fun x => P (h x)) l).
Proof.
  induction l as [|x l IH]; cbn; [reflexivity|].
  destruct (P (h x)); cbn; now rewrite IH.
Qed.

Lemma filter_twice {A : Type} (P Q : A -> bool) (l : list A) :
  filter Q (filter P l) = filter (fun x => P x && Q x) l.
Proof.
  induction l as [|x l IH]; cbn; [reflexivity|].
  destruct (P x); cbn; [destruct (Q x)|]; now rewrite IH.
Qed.

(** X11: the count of the answer is the count of the table.  With the
    identifiers distinct and the closing update accepted, the number of
    processed certificates the run reports (and writes on the batch) is the
    number of rows it moved from [pending] to [generated]. *)
Theorem answer_counts_generated_rows :
  forall beyond env batchId w bt,
    NoDup (map Certificate.id (certificates w)) ->
    snd (select_batch env batchId w) = Normal bt ->
    certificates_select_error env = None ->
    batch_update_error env = None ->
    snd (run beyond env batchId w)
    = Normal
        (Success
           (CertificateColumns.moved_to_generated batchId (certificates w)
              (certificates (fst (run beyond env batchId w))))
           (List.length (filter (is_pending batchId) (certificates w)))
           batchId).
Proof.
  intros beyond env batchId w bt Hkey Hb Hs Hu.
  rewrite (run_result beyond env batchId w bt Hb Hs Hkey), Hu.
  do 2 f_equal.
  set (g := fun r : Certificate.row =>
              if is_pending batchId r then
                match snd (generate beyond env (snd bt) r w) with
                | Normal _ =>
                    Certificate.generated
                      (getPublicUrl env (certificateFileName r)) r
                | Throw m =>
                    match failed_update_error env (Certificate.id r) with
                    | None => Certificate.failed m r
                    | Some _ => r
                    end
                end
              else r).
  assert (E : certificates (fst (run beyond env batchId w))
              = map g (certificates w)).
  { apply map_of_rows.
    - pose proof (run_columns beyond env batchId w) as H.
      apply (f_equal (@List.length _)) in H. now rewrite !length_map in H.
    - intros i r Hi. unfold g. destruct (is_pending batchId r) eqn:Hp.
      + now apply (run_row beyond env batchId w bt Hb Hs Hkey).
      + rewrite (run_certificates beyond env batchId w bt Hb Hs).
        apply for_of_frame; [exact Hi|].
        now apply not_pending_not_attempted with (i := i). }
  unfold CertificateColumns.moved_to_generated.
  rewrite E, combine_map_self, filter_map_length, filter_twice.
  f_equal. apply filter_ext. intros r. cbn [fst snd]. unfold g.
  destruct (is_pending batchId r) eqn:Hp; [|reflexivity].
  cbn [andb]. unfold succeeds.
  destruct (snd (generate beyond env (snd bt) r w)) as [u|m]; [reflexivity|].
  unfold is_pending in Hp. apply andb_true_iff in Hp as [_ Hst].
  apply String.eqb_eq in Hst.
  destruct (failed_update_error env (Certificate.id r)); cbn;
    [now rewrite Hst|reflexivity].
Qed.

Lemma answer_counts_generated_rows_witness :
  snd (run Render.no_engine Examples.second_upload_refused "b1" Examples.world)
  = Normal (Success 2 3 "b1").
Proof.
  apply (answer_counts_generated_rows Render.no_engine
           Examples.second_upload_refused "b1" Examples.world
           (Examples.batch, Some Examples.template)).
  - repeat constructor; cbn; intuition discriminate.
  - reflexivity.
  - reflexivity.
  - reflexivity.
Defined.

End HandlerMore.

(* ------------------------------------------------------------------ *)
(** ** Further facts about the substitution *)

Module RenderMore.
Import Js Render Conditions JsFacts.

(** Every pattern of the fragment starts with the two opening braces and is
    as long as the marker. *)
Lemma placeholder_regexp_shape (k : text) (p : list atom) :
  placeholder_regexp k = Some p ->
  exists body,
    key_atoms k = Some body
    /\ p = (Lit "{" :: Lit "{" :: body ++ [Lit "}"; Lit "}"])%char.
Proof.
  unfold placeholder_regexp. destruct (quantifier_body k); [discriminate|].
  destruct (key_atoms k) as [body|]; [|discriminate].
  intros [= <-]. now exists body.
Qed.

Lemma key_atoms_length (k : text) (body : list atom) :
  key_atoms k = Some body -> List.length body = List.length k.
Proof.
  revert body. induction k as [|c k IH]; cbn [key_atoms]; intros body H.
  - now injection H as <-.
  - destruct (key_atoms k) as [rest|]; [|discriminate].
    destruct (is_char "." c); [|destruct (syntax_char c); [discriminate|]];
      injection H as <-; cbn [List.length]; now rewrite (IH rest).
Qed.

(** The atoms of a key match the key itself. *)
Lemma key_atoms_match (k : text) (body q : list atom) (s : text) :
  key_atoms k = Some body ->
  match_here (body ++ q) (k ++ s) = match_here q s.
Proof.
  revert body. induction k as [|c k IH]; cbn [key_atoms app]; intros body H.
  - now injection H as <-.
  - destruct (key_atoms k) as [rest|]; [|discriminate].
    destruct (is_char "." c) eqn:Hc.
    + apply is_char_true in Hc. subst c. injection H as <-.
      cbn [app match_here atom_matches]. cbn [line_terminator]. now apply IH.
    + destruct (syntax_char c); [discriminate|].
      injection H as <-. cbn [app match_here atom_matches].
      rewrite Ascii.eqb_refl. now apply IH.
Qed.

(** In the fragment a key always matches its own marker. *)
Lemma match_here_own_marker (k : text) (p : list atom) (s : text) :
  placeholder_regexp k = Some p ->
  match_here p (placeholder k ++ s) = Some s
  /\ List.length p = List.length (placeholder k).
Proof.
  intros H. apply placeholder_regexp_shape in H as (body & Hb & ->). split.
  - unfold placeholder. cbn [str list_ascii_of_string app match_here
                             atom_matches].
    rewrite !Ascii.eqb_refl. rewrite <- app_assoc.
    rewrite (key_atoms_match k body _ _ Hb). cbn.
    reflexivity.
  - unfold placeholder.
    cbn [List.length str list_ascii_of_string app].
    rewrite !length_app. cbn [List.length].
    now rewrite (key_atoms_length k body Hb).
Qed.

Lemma match_here_needs_marker_start (p : list atom) (s : text) :
  no_marker_start s = true ->
  match_here (Lit "{" :: Lit "{" :: p)%char s = None.
Proof.
  destruct s as [|c [|d s]];
    cbn [match_here atom_matches no_marker_start is_char]; try reflexivity.
  - now destruct (Ascii.eqb "{" c).
  - intros H. apply andb_true_iff in H as [H _].
    rewrite (Ascii.eqb_sym c), (Ascii.eqb_sym d) in H.
    destruct (Ascii.eqb "{" c); [|reflexivity].
    destruct (Ascii.eqb "{" d); [discriminate|reflexivity].
Qed.

Lemma no_marker_start_suffix (a b : text) :
  no_marker_start (a ++ b) = true -> no_marker_start b = true.
Proof.
  induction a as [|c a IH]; [auto|].
  intros H. apply IH. cbn [app] in H. cbn [no_marker_start] in H.
  destruct (a ++ b) as [|d t]; [reflexivity|].
  now apply andb_true_iff in H.
Qed.

(** X12: a text that holds no [{{] goes through the loop unchanged,
    whatever the keys of the fragment and whatever the values, [$]
    included. *)
Theorem no_marker_start_unchanged :
  forall beyond (D : data) (h : text),
    forallb (fun kv => in_fragment (fst kv)) D = true ->
    no_marker_start h = true ->
    htmlContent beyond (Some h) (Some D) = Normal (Some h).
Proof.
  intros beyond D h HD Hh. cbn [htmlContent].
  induction D as [|[k v] D IH]; [reflexivity|].
  cbn in HD. apply andb_true_iff in HD as [Hk HD].
  cbn [forEach replace_placeholder]. unfold in_fragment in Hk.
  destruct (placeholder_regexp k) as [p|] eqn:Hp; [|discriminate].
  apply placeholder_regexp_shape in Hp as (body & _ & ->).
  unfold replace. rewrite replace_from_no_match; [now apply IH|].
  intros a b -> _. apply match_here_needs_marker_start.
  now apply no_marker_start_suffix in Hh.
Qed.

Lemma no_marker_start_unchanged_witness :
  htmlContent no_engine (Some (str "body { margin: 0 } $& {x}"))
    (Some [(str "x", VStr (str "$&")); (str "a.b", VNum 1 eq_refl)])
  = Normal (Some (str "body { margin: 0 } $& {x}")).
Proof.
  apply (no_marker_start_unchanged no_engine); reflexivity.
Defined.

(** With [$&] as replacement every match is put back. *)
Lemma replace_from_ampersand (a : atom) (p' : list atom) :
  forall s skip before,
    firstn skip s ++ replace_from (a :: p') (str "$&") skip before s = s.
Proof.
  induction s as [|c s IH]; intros skip before.
  - now destruct skip.
  - destruct skip as [|n].
    + cbn [firstn app replace_from].
      destruct (match_here (a :: p') (c :: s)) as [after|];
        [|f_equal; exact (IH 0 _)].
      replace (List.length (a :: p') - 1) with (List.length p')
        by (cbn [List.length]; lia).
      cbn [List.length firstn].
      change (get_substitution (c :: firstn (List.length p') s) before after
                (str "$&"))
        with ((c :: firstn (List.length p') s) ++ []).
      rewrite app_nil_r. cbn [app]. f_equal. apply IH.
    + cbn [firstn app replace_from]. f_equal. apply IH.
Qed.

(** X13: a value that is the two characters [$&] puts every match back:
    for every key of the fragment the text is the same after the turn of
    that key; none of its markers is replaced. *)
Theorem ampersand_value_changes_nothing :
  forall beyond (key h : text),
    in_fragment key = true ->
    replace_placeholder beyond key (VStr (str "$&")) (Some h)
    = Normal (Some h).
Proof.
  intros beyond key h Hk. unfold in_fragment in Hk.
  cbn [replace_placeholder].
  destruct (placeholder_regexp key) as [p|] eqn:Hp; [|discriminate].
  apply placeholder_regexp_shape in Hp as (body & _ & ->).
  unfold replace. cbn [String_].
  f_equal. f_equal.
  exact (replace_from_ampersand _ _ h 0 []).
Qed.

Lemma ampersand_value_changes_nothing_witness :
  replace_placeholder no_engine (str "name") (VStr (str "$&"))
    (Some (str "Hello {{name}}"))
  = Normal (Some (str "Hello {{name}}")).
Proof.
  apply (ampersand_value_changes_nothing no_engine). reflexivity.
Defined.

Lemma replace_from_copy_open_free (q : list atom) (r a : text) :
  open_free a = true ->
  forall before s,
    replace_from (Lit "{" :: q)%char r 0 before (a ++ s)
    = a ++ replace_from (Lit "{" :: q)%char r 0 (before ++ a) s.
Proof.
  induction a as [|c a IH]; intros Ha before s.
  - now rewrite app_nil_r.
  - cbn [open_free forallb] in Ha. apply andb_true_iff in Ha as [Hc Ha].
    apply negb_true_iff in Hc. cbn [is_char] in Hc.
    rewrite <- app_comm_cons, replace_from_copy.
    + rewrite (IH Ha), <- app_assoc. reflexivity.
    + cbn [match_here atom_matches]. rewrite Ascii.eqb_sym. now rewrite Hc.
Qed.

(** X14: a template with a single marker.  When the text before the
    marker holds no [{] and the text after it no [{{], a key of the
    fragment (wildcards included) with a value whose text holds no [$]
    renders the marker as the text [String] gives the value (a string
    itself, the digits of a safe integer, the text of any other number),
    as it is: braces in the value, or the marker itself, are inserted and
    not scanned again. *)
Theorem single_marker_replaced :
  forall beyond (k a b : text) (v : value),
    in_fragment k = true ->
    dollar_free (String_ v) = true ->
    open_free a = true ->
    no_marker_start b = true ->
    htmlContent beyond (Some (a ++ placeholder k ++ b)) (Some [(k, v)])
    = Normal (Some (a ++ String_ v ++ b)).
Proof.
  intros beyond k a b v Hk Hv Ha Hb. unfold in_fragment in Hk.
  cbn [htmlContent forEach replace_placeholder].
  destruct (placeholder_regexp k) as [p|] eqn:Hp; [|discriminate].
  destruct (match_here_own_marker k p b Hp) as [Hm Hlen].
  apply placeholder_regexp_shape in Hp as (body & _ & Hshape).
  do 2 f_equal. unfold replace. rewrite Hshape.
  rewrite (replace_from_copy_open_free _ _ a Ha). f_equal.
  rewrite <- Hshape.
  assert (E : placeholder k ++ b
              = "{"%char :: ("{"%char :: k ++ str "}}") ++ b)
    by reflexivity.
  rewrite E, (replace_from_match _ _ _ _ b) by (rewrite <- E; exact Hm).
  rewrite get_substitution_plain by exact Hv. f_equal.
  replace (List.length p - 1)
    with (List.length ("{"%char :: k ++ str "}}"))
    by (rewrite Hlen; unfold placeholder; cbn [str list_ascii_of_string app
                                                  List.length]; lia).
  rewrite replace_from_skip, Hshape. apply replace_from_no_match.
  intros x y -> _. apply match_here_needs_marker_start.
  now apply no_marker_start_suffix in Hb.
Qed.

Lemma single_marker_replaced_witness :
  htmlContent no_engine (Some (str "Dear {{first.name}}, welcome {you}"))
    (Some [(str "first.name", VStr (str "{{first.name}} & co"))])
  = Normal (Some (str "Dear {{first.name}} & co, welcome {you}")).
Proof.
  apply (single_marker_replaced no_engine (str "first.name") (str "Dear ")
           (str ", welcome {you}") (VStr (str "{{first.name}} & co")));
    reflexivity.
Defined.

End RenderMore.

(* ------------------------------------------------------------------ *)
(** ** Facts about the template editor *)

Module EditorFacts.
Import Js Render Template JsFacts TemplateFacts CreateTemplate.

Lemma includes_In (names : list text) (name : text) :
  includes names name = true <-> In name names.
Proof.
  unfold includes. rewrite existsb_exists. split.
  - intros (q & Hq & E). apply text_eqb_true in E. now subst.
  - intros H. exists name. split; [exact H|apply text_eqb_refl].
Qed.

Lemma NoDup_snoc {A : Type} (l : list A) (x : A) :
  NoDup l -> ~ In x l -> NoDup (l ++ [x]).
Proof.
  induction l as [|a l IH]; intros Hl Hx.
  - repeat constructor. tauto.
  - inversion Hl as [|? ? Ha Hl']; subst. cbn. constructor.
    + rewrite in_app_iff. cbn. intros [H|[H|[]]]; [tauto|].
      apply Hx. now left.
    + apply IH; [exact Hl'|]. intros H. apply Hx. now right.
Qed.

Lemma step_tidy (st : State) (e : Event) : tidy st -> tidy (step st e).
Proof.
  intros [Hnd Hne]. destruct e as [s| |p|p|c]; cbn [step]; try (now split).
  - unfold addPlaceholder.
    destruct (truthy (newPlaceholder st)) eqn:Ht; [|now split].
    destruct (includes (placeholders st) (newPlaceholder st)) eqn:Hi;
      [now split|].
    cbn [andb negb]. split; cbn [placeholders].
    + apply NoDup_snoc; [exact Hnd|].
      intros H. apply includes_In in H. congruence.
    + rewrite in_app_iff. cbn. intros [H|[H|[]]]; [tauto|].
      rewrite H in Ht. discriminate.
  - split; cbn [removePlaceholder placeholders].
    + now apply NoDup_filter.
    + intros H. apply filter_In in H. tauto.
Qed.

(** X15: whatever the user types, adds, removes, inserts and edits, from
    the three names the page starts with, the list of placeholder names
    (the one saved with the template) never holds a name twice and never
    holds the empty name. *)
Theorem placeholders_stay_tidy :
  forall (defaultHtmlTemplate : text) (events : list Event),
    let st := after events (initial defaultHtmlTemplate) in
    NoDup (placeholders st) /\ ~ In [] (placeholders st).
Proof.
  intros d events. cbv zeta. unfold after.
  assert (H0 : tidy (initial d)).
  { split; cbn.
    - repeat constructor; cbn; intuition discriminate.
    - intuition discriminate. }
  revert H0. generalize (initial d). induction events as [|e events IH];
    intros st Hst; [exact Hst|].
  cbn [fold_left]. apply IH. now apply step_tidy.
Qed.

Lemma filter_absent (l : list text) (p : text) :
  ~ In p l -> filter (fun q => negb (text_eqb q p)) l = l.
Proof.
  induction l as [|q l IH]; intros Hp; [reflexivity|].
  cbn [filter]. destruct (text_eqb q p) eqn:E.
  - apply text_eqb_true in E. subst q. elim Hp. now left.
  - cbn [negb]. f_equal. apply IH. intros H. apply Hp. now right.
Qed.

(** X16: adding a name that is new and not empty, then removing it, gives
    back the list of names as it was; the input field is cleared and the
    template is not touched. *)
Theorem add_then_remove :
  forall (st : State),
    newPlaceholder st <> [] ->
    ~ In (newPlaceholder st) (placeholders st) ->
    removePlaceholder (newPlaceholder st) (addPlaceholder st)
    = {| placeholders := placeholders st;
         newPlaceholder := [];
         template_content := template_content st |}.
Proof.
  intros st Hne Hnew. unfold addPlaceholder.
  assert (Ht : truthy (newPlaceholder st) = true)
    by (destruct (newPlaceholder st); [contradiction|reflexivity]).
  assert (Hi : includes (placeholders st) (newPlaceholder st) = false).
  { destruct (includes (placeholders st) (newPlaceholder st)) eqn:E;
      [|reflexivity].
    apply includes_In in E. contradiction. }
  rewrite Ht, Hi. cbn [andb negb]. unfold removePlaceholder.
  cbn [placeholders newPlaceholder template_content]. f_equal.
  rewrite filter_app. cbn [filter]. rewrite text_eqb_refl. cbn [negb].
  rewrite app_nil_r. now apply filter_absent.
Qed.

Lemma add_then_remove_witness :
  removePlaceholder (str "grade")
    (addPlaceholder
       (step (initial (str "<p>{{recipientName}}</p>"))
          (TypeName (str "grade"))))
  = initial (str "<p>{{recipientName}}</p>").
Proof.
  apply (add_then_remove
           (step (initial (str "<p>{{recipientName}}</p>"))
              (TypeName (str "grade")))).
  - discriminate.
  - cbn. intuition discriminate.
Defined.

(** X17: a marker inserted from the editor is rendered by the function.
    When the template with the inserted marker is well formed, a name that
    the engine reads literally (no regular-expression syntax character,
    and not the body of a quantifier: digits, possibly followed by a comma
    and digits, as in [1] or [2024]) and a value whose text holds no brace
    and no [$] render it as the rendering of the template before the
    insertion followed by the text [String] gives the value. *)
Theorem inserted_marker_is_rendered :
  forall beyond (st : State) (toks : list token) (p : text) (v : value),
    template_content st = flatten toks ->
    well_formed (toks ++ [Marker p]) = true ->
    literal_key p = true ->
    inert_value v = true ->
    htmlContent beyond (Some (template_content (insertPlaceholder p st)))
      (Some [(p, v)])
    = Normal (Some (flatten (substitute_markers [(p, v)] toks) ++ String_ v)).
Proof.
  intros beyond st toks p v Hc Hw Hp Hv.
  cbn [insertPlaceholder template_content]. rewrite Hc.
  replace (flatten toks ++ placeholder p) with (flatten (toks ++ [Marker p]))
    by (rewrite flatten_app; cbn; now rewrite app_nil_r).
  rewrite htmlContent_substitute_markers; auto.
  - rewrite substitute_markers_app, flatten_app. do 3 f_equal.
    cbn. rewrite text_eqb_refl, app_nil_r. apply flatten_chars.
  - cbn. now rewrite Hp.
  - cbn. now rewrite Hv.
Qed.

Lemma inserted_marker_is_rendered_witness :
  htmlContent no_engine
    (Some (template_content
             (insertPlaceholder (str "name")
                (step (initial []) (EditContent (str "Hello "))))))
    (Some [(str "name", VStr (str "Ana"))])
  = Normal (Some (str "Hello Ana")).
Proof.
  apply (inserted_marker_is_rendered no_engine
           (step (initial []) (EditContent (str "Hello ")))
           (map Char (str "Hello ")) (str "name") (VStr (str "Ana")));
    reflexivity.
Defined.

Section Preview.
Variable beyond : text -> text -> text -> completion text.
Variable toUpperCase : text -> text.

Lemma getPreviewContent_forEach (names : list text) (content : text) :
  match getPreviewContent_from beyond toUpperCase names content with
  | Normal c => Normal (Some c)
  | Throw m => Throw m
  end
  = forEach beyond (preview_data toUpperCase names) (Some content).
Proof.
  revert content. induction names as [|p names IH]; intros content;
    [reflexivity|].
  cbn [getPreviewContent_from preview_data map forEach replace_placeholder
       String_].
  destruct (placeholder_regexp p).
  - apply IH.
  - destruct (beyond (placeholder p) (bracketed toUpperCase p) content);
      [apply IH|reflexivity].
Qed.

End Preview.

(** X18: the preview of a well-formed template, for listed names that the
    engine reads literally (no regular-expression syntax character, and
    not the body of a quantifier: digits, possibly followed by a comma and
    digits, as in [1] or [2024]) and whose bracketed upper case holds no
    brace and no [$], is the template with every marker of a listed name
    replaced by that bracketed upper case, in one pass; the markers of
    names that are not listed stay. *)
Theorem preview_substitutes_listed_names :
  forall beyond toUpperCase (st : State) (toks : list token),
    template_content st = flatten toks ->
    well_formed toks = true ->
    literal_keys (preview_data toUpperCase (placeholders st)) = true ->
    inert_values (preview_data toUpperCase (placeholders st)) = true ->
    getPreviewContent beyond toUpperCase st
    = Normal
        (flatten
           (substitute_markers
              (preview_data toUpperCase (placeholders st)) toks)).
Proof.
  intros beyond up st toks Hc Hw Hk Hv. unfold getPreviewContent.
  pose proof (getPreviewContent_forEach beyond up (placeholders st)
                (template_content st)) as H.
  rewrite Hc in *.
  rewrite (forEach_substitute_markers beyond _ toks Hk Hv Hw) in H.
  destruct (getPreviewContent_from beyond up (placeholders st) (flatten toks));
    congruence.
Qed.

Lemma preview_substitutes_listed_names_witness :
  getPreviewContent no_engine MoreExamples.upper
    (initial (str "Dear {{recipientName}}, from {{dean}}"))
  = Normal (str "Dear [RECIPIENTNAME], from {{dean}}").
Proof.
  apply (preview_substitutes_listed_names no_engine MoreExamples.upper
           (initial (str "Dear {{recipientName}}, from {{dean}}"))
           (map Char (str "Dear ") ++ [Marker (str "recipientName")]
            ++ map Char (str ", from ") ++ [Marker (str "dean")]));
    reflexivity.
Defined.

End EditorFacts.

(* ------------------------------------------------------------------ *)
(** ** Facts about the search boxes *)

Module SearchFacts.
Import Search.

Lemma starts_with_spec (t s : utf16) :
  starts_with t s = true <-> exists b, s = t ++ b.
Proof.
  revert s. induction t as [|c t IH]; intros s.
  - split; [now exists s|reflexivity].
  - destruct s as [|d s]; cbn [starts_with].
    + split; [discriminate|]. intros [b Hb]. discriminate.
    + rewrite andb_true_iff, N.eqb_eq, IH. split.
      * intros [-> [b ->]]. now exists b.
      * intros [b [= -> ->]]. split; [reflexivity|now exists b].
Qed.

(** [includes] is the occurrence of one text in the other. *)
Lemma includes_spec (s t : utf16) :
  includes s t = true <-> exists a b, s = a ++ t ++ b.
Proof.
  induction s as [|c s IH].
  - cbn [includes]. rewrite orb_false_r, starts_with_spec. split.
    + intros [b Hb]. now exists [], b.
    + intros (a & b & H). destruct a as [|x a]; [now exists b|discriminate].
  - cbn [includes]. rewrite orb_true_iff, starts_with_spec, IH. split.
    + intros [[b Hb]|(a & b & ->)].
      * now exists [], b.
      * now exists (c :: a), b.
    + intros ([|x a] & b & H).
      * left. now exists b.
      * right. injection H as -> ->. now exists a, b.
Qed.

Lemma includes_empty (s : utf16) : includes s [] = true.
Proof. apply includes_spec. now exists [], s. Qed.

Section Pages.

Variable lower_case : utf16 -> utf16.

Local Abbreviation toLowerCase := (toLowerCase lower_case).
Local Abbreviation found := (found lower_case).
Local Abbreviation filteredTemplates := (filteredTemplates lower_case).
Local Abbreviation filteredBatches := (filteredBatches lower_case).

Lemma found_spec (term first : utf16) (second : option utf16) :
  found term first second = true
  <-> (exists a b, toLowerCase first = a ++ toLowerCase term ++ b)
      \/ (exists d a b,
            second = Some d /\ d <> []
            /\ toLowerCase d = a ++ toLowerCase term ++ b).
Proof.
  unfold Search.found. rewrite orb_true_iff, includes_spec.
  apply or_iff_compat_l. destruct second as [d|].
  - rewrite andb_true_iff, includes_spec. split.
    + intros [Hd (a & b & H)]. exists d, a, b. repeat split; auto.
      intros ->. discriminate.
    + intros (d' & a & b & [= <-] & Hd & H). split; [|now exists a, b].
      destruct d; [contradiction|reflexivity].
  - split; [discriminate|]. intros (d & a & b & H & _). discriminate.
Qed.

Lemma filteredTemplates_In (term : utf16) (templates : list template)
    (t : template) :
  In t (filteredTemplates term templates)
  <-> In t templates /\ found term (name t) (description t) = true.
Proof. unfold Search.filteredTemplates. apply filter_In. Qed.

(** The lists narrow as soon as the shorter term, in lower case, occurs in
    the longer one in lower case. *)
Lemma found_narrows (term term' x y first : utf16) (second : option utf16) :
  toLowerCase term' = x ++ toLowerCase term ++ y ->
  found term' first second = true -> found term first second = true.
Proof.
  intros E H. apply found_spec in H. apply found_spec.
  rewrite E in H.
  destruct H as [(a & b & H)|(d & a & b & Hd & Hne & H)].
  - left. exists (a ++ x), (y ++ b).
    rewrite H, <- !app_assoc. reflexivity.
  - right. exists d, (a ++ x), (y ++ b).
    repeat split; auto. rewrite H, <- !app_assoc. reflexivity.
Qed.

End Pages.

(** X19: with an empty search term both lists are shown whole, whatever
    the case conversion does. *)
Theorem empty_search_lists_all :
  forall (lower_case : utf16 -> utf16)
         (templates : list template) (batches : list batch),
    filteredTemplates lower_case [] templates = templates
    /\ filteredBatches lower_case [] batches = batches.
Proof.
  intros lower_case templates batches.
  unfold filteredTemplates, filteredBatches, found.
  cbn [toLowerCase]. split.
  - induction templates as [|t l IH]; [reflexivity|].
    cbn [filter]. rewrite includes_empty. cbn [orb]. now rewrite IH.
  - induction batches as [|t l IH]; [reflexivity|].
    cbn [filter]. rewrite includes_empty. cbn [orb]. now rewrite IH.
Qed.

(** X20: a template is listed exactly when the search term, in lower
    case, occurs in its name in lower case, or in its description in lower
    case when there is one and it is not empty. *)
Theorem search_lists_occurrences :
  forall (lower_case : utf16 -> utf16)
         (term : utf16) (templates : list template) (t : template),
    In t (filteredTemplates lower_case term templates)
    <-> In t templates
        /\ ((exists a b,
               toLowerCase lower_case (name t)
               = a ++ toLowerCase lower_case term ++ b)
            \/ (exists d a b,
                  description t = Some d /\ d <> []
                  /\ toLowerCase lower_case d
                     = a ++ toLowerCase lower_case term ++ b)).
Proof.
  intros lower_case term templates t. rewrite filteredTemplates_In.
  now rewrite found_spec.
Qed.

(** X22: the lists narrow when the shorter term, in lower case, occurs in
    the longer term in lower case: every template and every batch listed
    for the longer term is then listed for the shorter one.  (The
    condition is on the converted terms: the conversion of a term need not
    contain the conversion of its parts.) *)
Theorem longer_term_narrows :
  forall (lower_case : utf16 -> utf16) (term term' x y : utf16)
         (templates : list template) (batches : list batch),
    toLowerCase lower_case term'
    = x ++ toLowerCase lower_case term ++ y ->
    incl (filteredTemplates lower_case term' templates)
      (filteredTemplates lower_case term templates)
    /\ incl (filteredBatches lower_case term' batches)
         (filteredBatches lower_case term batches).
Proof.
  intros lower_case term term' x y templates batches E.
  split; intros r Hr.
  - apply filter_In in Hr as [Hin Hf]. apply filter_In. split; [exact Hin|].
    now apply (found_narrows lower_case term term' x y).
  - apply filter_In in Hr as [Hin Hf]. apply filter_In. split; [exact Hin|].
    now apply (found_narrows lower_case term term' x y).
Qed.

Lemma longer_term_narrows_witness :
  incl (filteredTemplates MoreExamples.ascii_lower (utf16_of "Cour")
          [MoreExamples.diploma; MoreExamples.course])
    (filteredTemplates MoreExamples.ascii_lower (utf16_of "OU")
       [MoreExamples.diploma; MoreExamples.course]).
Proof.
  apply (longer_term_narrows MoreExamples.ascii_lower
           (utf16_of "OU") (utf16_of "Cour") (utf16_of "c") (utf16_of "r")
           [MoreExamples.diploma; MoreExamples.course] []).
  reflexivity.
Defined.

(** X23: deleting a template and searching commute: the list shown after a
    deletion is the list shown before it without the templates of that
    identifier, for every search term. *)
Theorem delete_then_search :
  forall (lower_case : utf16 -> utf16)
         (term : utf16) (templateId : string) (templates : list template),
    filteredTemplates lower_case term (deleteTemplate templateId templates)
    = deleteTemplate templateId (filteredTemplates lower_case term templates).
Proof.
  intros lower_case term templateId templates.
  unfold filteredTemplates, deleteTemplate.
  induction templates as [|t l IH]; [reflexivity|]. cbn [filter].
  destruct (negb (String.eqb (template_id t) templateId)) eqn:E1;
    destruct (found lower_case term (name t) (description t)) eqn:E2;
    cbn [filter]; rewrite ?E1, ?E2, IH; reflexivity.
Qed.

End SearchFacts.
